(** * The WebSocket hub: server registry and message relay

    A shallow embedding of [backend/websocket/messageTypes.js] and
    [backend/websocket/hub.js], of the callers of the hub in
    [services/authService.js] ([login], [servers]), and of the self-contained
    helpers around them: [middlewares/requireGameServer.js],
    [utils/ipBlocker.js], [sanitize] of [utils/security.js],
    [sanitizeObject] of [middlewares/requestLogger.js] and [escapeRegex] of
    [services/gameserverService.js].

    Node runs every event handler to completion on one thread, so the hub is
    a sequential state machine over the events it is handed: an accepted
    connection, a text message on a connection, the close of a connection,
    and the two calls that the rest of the back end makes into the module
    ([sendMessageToServer], [getConnectedServerNames]).

    Conventions.
    - A JavaScript string is represented by its UTF-8 encoding, which is
      what [Buffer.from] turns it into; [String.length] is then the length
      of the buffer.
    - The values read from an inbound frame ([type], [data.name],
      [data.token], [data.serverName]) are JSON scalars, [undefined] when
      the property is absent; arrays and objects in these places are not
      covered. A number is an integer that JavaScript prints in decimal.
    - [ws.send(JSON.stringify (v))] is recorded as [Send ws v]: the effect
      keeps the value that is serialised rather than its text.
    - Log lines are recorded by level and call site, with the values that
      determine the message: the values that are interpolated into it, and
      for the warning about an unhandled type the [type] of the frame, of
      which the interpolated [typeStr] is [MessageTypes[type]].
    - Calls of [crypto.timingSafeEqual] are recorded among the effects, so
      that statements can say when the comparator runs. *)

From Stdlib Require Import ZArith Strings.Ascii Strings.Byte.
From stdpp Require Import base decidable option list strings pretty gmap.

#[local] Set Warnings "-clear-no-such-hyp".

Local Open Scope string_scope.
Local Open Scope Z_scope.
Local Open Scope list_scope.

(** ** JavaScript values *)

Inductive jsval :=
  | JUndefined
  | JNull
  | JBool (b : bool)
  | JNum (n : Z)
  | JStr (s : string).

#[global] Instance jsval_eq_dec : EqDecision jsval.
Proof. solve_decision. Defined.

(** [ToBoolean]: what [!v] and [v || w] test. *)
Definition truthy (v : jsval) : bool :=
  match v with
  | JUndefined | JNull => false
  | JBool b => b
  | JNum n => negb (n =? 0)
  | JStr s => negb (String.eqb s "")
  end.

(** [ToString], used for property keys and template literals. *)
Definition ToString (v : jsval) : string :=
  match v with
  | JUndefined => "undefined"
  | JNull => "null"
  | JBool true => "true"
  | JBool false => "false"
  | JNum n => pretty n
  | JStr s => s
  end.

(** [a || b] *)
Definition js_or (a b : jsval) : jsval := if truthy a then a else b.

(** An object with scalar properties, as its own properties in order. *)
Definition object := list (string * jsval).

Fixpoint prop (o : object) (key : string) : jsval :=
  match o with
  | [] => JUndefined
  | (k, v) :: o' => if decide (k = key) then v else prop o' key
  end.

(** [data?.key]: [data] is [None] when it is [undefined] or [null], or a
    value (a scalar, an array) that has no such property. *)
Definition opt_prop (data : option object) (key : string) : jsval :=
  match data with
  | None => JUndefined
  | Some o => prop o key
  end.

(** Values handed to [JSON.stringify]. *)
#[local] Unset Elimination Schemes.
Inductive json :=
  | JAtom (v : jsval)
  | JObject (props : list (string * json))
  | JArray (items : list json).
#[local] Set Elimination Schemes.

Fixpoint json_props_get (props : list (string * json)) (key : string) : option json :=
  match props with
  | [] => None
  | (k, v) :: props' => if decide (k = key) then Some v else json_props_get props' key
  end.

(** [frame.key] on a serialised value: [None] stands for [undefined]. *)
Definition json_get (frame : json) (key : string) : option json :=
  match frame with
  | JObject props => json_props_get props key
  | _ => None
  end.

(** ** messageTypes.js *)

Definition MessageTypes_literal : list (string * jsval) :=
  [ ("SERVER_CONNECT", JNum 1);
    ("CLIENT_CONNECT", JNum 2);
    ("SERVER_CONNECT_RESULT", JNum 3);
    ("USER_CONNECTED", JNum 4) ].

(** The literal, then [MessageTypes[value] = key] for each of its entries. *)
Definition MessageTypes : gmap string jsval :=
  foldl (λ obj '(key, value), <[ToString value := JStr key]> obj)
        (list_to_map MessageTypes_literal)
        MessageTypes_literal.

(** [MessageTypes[key]] for the table's own properties. [None] is a key the
    table does not own: the read gives [undefined] or a member inherited
    from [Object.prototype], neither of which is a string. *)
Definition MessageTypes_at (key : jsval) : option jsval :=
  MessageTypes !! ToString key.

(** ** The [Map] of connected servers

    A JavaScript [Map] keeps one entry per key, in insertion order. *)

Definition ws := nat.

Definition Map := list (jsval * ws).

Fixpoint Map_get (m : Map) (key : jsval) : option ws :=
  match m with
  | [] => None
  | (k, v) :: m' => if decide (k = key) then Some v else Map_get m' key
  end.

(** [set] replaces the value of an existing key in place and appends a new
    key at the end. *)
Fixpoint Map_set (m : Map) (key : jsval) (value : ws) : Map :=
  match m with
  | [] => [(key, value)]
  | (k, v) :: m' =>
      if decide (k = key) then (k, value) :: m' else (k, v) :: Map_set m' key value
  end.

(** [delete] removes the entry of the key; keys being unique, that is every
    entry of the key. *)
Fixpoint Map_delete (m : Map) (key : jsval) : Map :=
  match m with
  | [] => []
  | (k, v) :: m' =>
      if decide (k = key) then Map_delete m' key else (k, v) :: Map_delete m' key
  end.

Definition Map_keys (m : Map) : list jsval := m.*1.

(** ** State, effects and the handler monad *)

Record context := Context {
  serverName : jsval;
  authenticated : bool;
}.

#[global] Instance context_eq_dec : EqDecision context.
Proof. solve_decision. Defined.

(** The module-level [connectedServers] and the [context] object that each
    connection's closure holds, indexed by the connection. *)
Record hub := Hub {
  connectedServers : Map;
  contexts : gmap ws context;
}.

Inductive level := info | warn | error.

Inductive logline :=
  | LogOpened
  | LogState (servers : list jsval)
  | LogAuthFailed (name : jsval)
  | LogServerConnected (name : jsval)
  | LogClientConnected (name : jsval)
  | LogClientFailed (name : jsval)
  | LogClientUnauthenticated
  | LogUnhandledType (type : jsval)
  | LogProcessingError
  | LogClosed (name : jsval)
  | LogSent (name : jsval) (msg : json)
  | LogNotFound (name : jsval).

Definition Buffer := list byte.

#[global] Instance byte_eq_dec : EqDecision byte := Byte.byte_eq_dec.

Inductive effect :=
  | Send (w : ws) (frame : json)
  | Close (w : ws)
  | Log (lvl : level) (line : logline)
  | TimingSafeEqual (a b : Buffer).

Inductive exn := SyntaxError | TypeError | RangeError.

Inductive outcome (A : Type) :=
  | Ok (a : A)
  | Throw (e : exn).
Arguments Ok {A} a.
Arguments Throw {A} e.

Definition M (A : Type) : Type := hub → hub * list effect * outcome A.

#[global] Instance M_ret : MRet M := λ A a h, (h, [], Ok a).

#[global] Instance M_bind : MBind M := λ A B k m h,
  match m h with
  | (h1, out1, Ok a) => let '(h2, out2, r) := k a h1 in (h2, out1 ++ out2, r)
  | (h1, out1, Throw e) => (h1, out1, Throw e)
  end.

Definition throw {A} (e : exn) : M A := λ h, (h, [], Throw e).

(** [try { m } catch (e) { handler }] *)
Definition try_catch {A} (m : M A) (handler : exn → M A) : M A := λ h,
  match m h with
  | (h1, out1, Ok a) => (h1, out1, Ok a)
  | (h1, out1, Throw e) => let '(h2, out2, r) := handler e h1 in (h2, out1 ++ out2, r)
  end.

Definition emit (e : effect) : M unit := λ h, (h, [e], Ok tt).

Definition ws_send (w : ws) (frame : json) : M unit := emit (Send w frame).
Definition ws_close (w : ws) : M unit := emit (Close w).
Definition logger (lvl : level) (line : logline) : M unit := emit (Log lvl line).

Definition get_servers : M Map := λ h, (h, [], Ok (connectedServers h)).
Definition put_servers (m : Map) : M unit := λ h,
  (Hub m (contexts h), [], Ok tt).

(** The context object of connection [w]. *)
#[global] Instance context_inhabited : Inhabited context :=
  populate (Context (JStr "UnknownServer") false).

Definition get_context (w : ws) : M context := λ h, (h, [], Ok (contexts h !!! w)).
Definition put_context (w : ws) (c : context) : M unit := λ h,
  (Hub (connectedServers h) (<[w := c]> (contexts h)), [], Ok tt).

(** ** utils/ipBlocker.js

    The two [Map]s of the module are keyed by address and never iterated.
    [Date.now()] is the argument [now], in milliseconds. *)

(** The constants that the module imports from [config/config.js]. *)
Record ipBlocker_config := {
  BLOCK_DURATION_MINUTES : Z;
  MAX_INVALID_ATTEMPTS : Z;
}.

Record ipBlocker := IpBlocker {
  blacklist : gmap string Z;
  attempts : gmap string Z;
}.

(** [a && b] *)
Definition js_and (a b : jsval) : jsval := if truthy a then b else a.

Definition normalizeIp (ip : string) : string :=
  if decide (ip = "::1") then "::ffff:127.0.0.1" else ip.

Definition isBlocked (now : Z) (ip : string) (b : ipBlocker) : jsval :=
  let ip := normalizeIp ip in
  match blacklist b !! ip with
  | None => JUndefined
  | Some expiresAt => js_and (JNum expiresAt) (JBool (now <? expiresAt))
  end.

Definition registerInvalidRequest (cfg : ipBlocker_config) (now : Z) (ip : string)
    (b : ipBlocker) : ipBlocker * bool :=
  let ip := normalizeIp ip in
  let count := default 0 (attempts b !! ip) in
  let attempts1 := <[ip := count + 1]> (attempts b) in
  if MAX_INVALID_ATTEMPTS cfg <=? count + 1 then
    let expires := now + BLOCK_DURATION_MINUTES cfg * 60 * 1000 in
    (IpBlocker (<[ip := expires]> (blacklist b)) (delete ip attempts1), true)
  else
    (IpBlocker (blacklist b) attempts1, false).

Definition reset (ip : string) (b : ipBlocker) : ipBlocker :=
  let ip := normalizeIp ip in
  IpBlocker (delete ip (blacklist b)) (delete ip (attempts b)).

(** Invalid requests of one address, one after the other, at the given
    times; the results of the calls in order. *)
Fixpoint invalid_requests (cfg : ipBlocker_config) (nows : list Z) (ip : string)
    (b : ipBlocker) : ipBlocker * list bool :=
  match nows with
  | [] => (b, [])
  | now :: nows' =>
      let '(b1, r) := registerInvalidRequest cfg now ip b in
      let '(b2, rs) := invalid_requests cfg nows' ip b1 in
      (b2, r :: rs)
  end.

(** ** utils/security.js

    [sanitize] works on a parsed request body, query or parameter object:
    a tree of objects, arrays and scalars. It changes the tree in place and
    returns nothing; the function below gives the tree as it is after the
    call. The properties of an object are listed in the order of
    [Object.keys]. *)

(** [s.startsWith(prefix)] and [s.includes(part)] *)
Definition startsWith (s prefix : string) : bool := String.prefix prefix s.

Fixpoint includes (s part : string) : bool :=
  String.prefix part s ||
  match s with
  | EmptyString => false
  | String _ s' => includes s' part
  end.

(** The test that decides a [delete]. *)
Definition removed_key (key : string) : bool :=
  startsWith key "$" || includes key ".".

(** The keys of an array are its indices, which the test never removes. *)
Fixpoint sanitize (obj : json) : json :=
  match obj with
  | JAtom v => JAtom v
  | JObject props =>
      JObject
        ((fix each (props : list (string * json)) : list (string * json) :=
            match props with
            | [] => []
            | (key, value) :: rest =>
                if removed_key key then each rest
                else (key, sanitize value) :: each rest
            end) props)
  | JArray items => JArray (map sanitize items)
  end.

(** No key of the tree, at any depth, is one that [sanitize] removes. *)
Fixpoint clean (v : json) : bool :=
  match v with
  | JAtom _ => true
  | JObject props =>
      (fix each (props : list (string * json)) : bool :=
         match props with
         | [] => true
         | (key, value) :: rest => negb (removed_key key) && clean value && each rest
         end) props
  | JArray items => forallb clean items
  end.

(** ** middlewares/requestLogger.js *)

Definition SENSITIVE_FIELDS : list string :=
  [ "password"; "token"; "access_token"; "refresh_token";
    "api_key"; "apikey"; "secret"; "authorization" ].

Section requestLogger_js.

(** [key.toLowerCase()], which follows the Unicode case mapping. *)
Variable toLowerCase : string → string.

(** [clone[key] = value] on the copy under construction, a plain object of
    which the tree lists the own properties, the ones that [Object.entries]
    and [JSON.stringify] see. [Object.entries] gives each key once. An
    assignment to the key ["__proto__"] runs the setter that the copy
    inherits from [Object.prototype]: it replaces the prototype of the copy
    when the value is an object or [null] and does nothing otherwise, and in
    either case the copy gets no property of that name. (A parsed body can
    hold the key: [JSON.parse] defines it as an own property.) *)
Definition assign (key : string) (value : json) (rest : list (string * json)) :
    list (string * json) :=
  if decide (key = "__proto__") then rest else (key, value) :: rest.

(** [sanitizeObject(data)] returns a copy. The indices of an array are no
    sensitive fields, and the copy of an array is an array, whose elements
    the assignments define. *)
Fixpoint sanitizeObject (data : json) : json :=
  match data with
  | JAtom v => JAtom v
  | JObject props =>
      JObject
        ((fix each (props : list (string * json)) : list (string * json) :=
            match props with
            | [] => []
            | (key, value) :: rest =>
                (if bool_decide (toLowerCase key ∈ SENSITIVE_FIELDS) then
                   assign key (JAtom (JStr "[REDACTED]"))
                 else
                   match value with
                   | JAtom v => assign key (JAtom v)
                   | _ => assign key (sanitizeObject value)
                   end) (each rest)
            end) props)
  | JArray items => JArray (map sanitizeObject items)
  end.

Definition sensitive (key : string) : bool :=
  bool_decide (toLowerCase key ∈ SENSITIVE_FIELDS).

Definition is_REDACTED (v : json) : bool :=
  match v with
  | JAtom (JStr s) => String.eqb s "[REDACTED]"
  | _ => false
  end.

(** Every sensitive key of the tree, at any depth, holds ['[REDACTED]']. *)
Fixpoint redacted (v : json) : bool :=
  match v with
  | JAtom _ => true
  | JObject props =>
      (fix each (props : list (string * json)) : bool :=
         match props with
         | [] => true
         | (key, value) :: rest =>
             (if sensitive key then is_REDACTED value else redacted value) && each rest
         end) props
  | JArray items => forallb redacted items
  end.

(** No object of the tree, at any depth, has the key ["__proto__"]. *)
Fixpoint plain (v : json) : bool :=
  match v with
  | JAtom _ => true
  | JObject props =>
      (fix each (props : list (string * json)) : bool :=
         match props with
         | [] => true
         | (key, value) :: rest =>
             negb (bool_decide (key = "__proto__")) && plain value && each rest
         end) props
  | JArray items => forallb plain items
  end.

(** What [sanitizeObject] assigns to a key. *)
Definition logged_value (key : string) (value : json) : json :=
  if sensitive key then JAtom (JStr "[REDACTED]") else sanitizeObject value.

End requestLogger_js.

(** ** services/gameserverService.js: [escapeRegex]

    The characters of the class in the regular expression of [escapeRegex],
    [. * + ? ^ $ { } ( ) | [ ]] and the backslash, each of which
    [replace] prefixes with a backslash. They are ASCII, so that the bytes of
    any other character pass unchanged. *)

Definition regex_special (c : Ascii.ascii) : bool :=
  bool_decide (c ∈ String.list_ascii_of_string ".*+?^${}()|[]\").

Fixpoint escapeRegex (s : string) : string :=
  match s with
  | EmptyString => EmptyString
  | String c s' =>
      if regex_special c then String "\"%char (String c (escapeRegex s'))
      else String c (escapeRegex s')
  end.

(** The string that a pattern stands for when it is made of plain
    characters and escaped special characters only; [None] when it holds a
    special character that is not escaped or a backslash that escapes
    something else. *)
Fixpoint literal_of_pattern (p : string) : option string :=
  match p with
  | EmptyString => Some EmptyString
  | String c p' =>
      if Ascii.eqb c "\"%char then
        match p' with
        | String c' p'' =>
            if regex_special c' then String c' <$> literal_of_pattern p'' else None
        | EmptyString => None
        end
      else if regex_special c then None
      else String c <$> literal_of_pattern p'
  end.

(** ** hub.js *)

Section hub_js.

(** [process.env.GAME_SERVER_TOKEN]: [None] when the variable is unset. The
    hub reads it on every call and never writes it. *)
Variable GAME_SERVER_TOKEN : option string.

Definition process_env_GAME_SERVER_TOKEN : jsval :=
  from_option JStr JUndefined GAME_SERVER_TOKEN.

(** [Buffer.from(value)]: the bytes of a string; a [TypeError] for the other
    scalars. *)
Definition Buffer_from (value : jsval) : M Buffer :=
  match value with
  | JStr s => mret (String.list_byte_of_string s)
  | _ => throw TypeError
  end.

(** [crypto.timingSafeEqual(a, b)] throws a [RangeError] unless both buffers
    have the same byte length. Each call is recorded. *)
Definition crypto_timingSafeEqual (a b : Buffer) : M bool :=
  emit (TimingSafeEqual a b);;
  if decide (length a = length b) then mret (bool_decide (a = b))
  else throw RangeError.

Definition printState : M unit :=
  servers ← get_servers;
  logger info (LogState (Map_keys servers)).

Definition isValidToken (token : jsval) : M bool :=
  let expected := process_env_GAME_SERVER_TOKEN in
  if negb (truthy token) || negb (truthy expected) then mret false else
  tokenBuffer ← Buffer_from token;
  expectedBuffer ← Buffer_from expected;
  if negb (bool_decide (length tokenBuffer = length expectedBuffer)) then mret false else
  crypto_timingSafeEqual tokenBuffer expectedBuffer.

(** The [type] that replies carry: [MessageTypes[id]] for a literal [id]. *)
Definition reply_type (id : Z) : json :=
  JAtom (default JUndefined (MessageTypes_at (JNum id))).

Definition handleServerConnect (w : ws) (data : option object) : M unit :=
  context ← get_context w;
  let serverName := js_or (opt_prop data "name") (serverName context) in
  let token := opt_prop data "token" in
  valid ← isValidToken token;
  if negb valid then
    ws_send w (JObject
      [ ("type", reply_type 3);
        ("data", JObject
           [ ("message", JAtom (JStr ("Autenticación fallida para " +:+ ToString serverName))) ]);
        ("success", JAtom (JBool false)) ]);;
    logger warn (LogAuthFailed serverName);;
    ws_close w
  else
    put_context w (Context serverName true);;
    servers ← get_servers;
    put_servers (Map_set servers serverName w);;
    ws_send w (JObject
      [ ("type", reply_type 3);
        ("data", JObject
           [ ("message", JAtom (JStr ("Servidor " +:+ ToString serverName +:+ " registrado correctamente")));
             ("server_id", JAtom serverName) ]);
        ("success", JAtom (JBool true)) ]);;
    logger info (LogServerConnected serverName);;
    printState.

Definition handleClientConnect (w : ws) (data : option object) : M unit :=
  let serverName := opt_prop data "serverName" in
  servers ← get_servers;
  let target := Map_get servers serverName in
  let success := bool_decide (is_Some target) in
  ws_send w (JObject
    (("type", reply_type 2) ::
     (if success
      then [ ("data", JObject [ ("token", JAtom (JStr "token")) ]) ]
      else [ ("data", JObject
                [ ("message", JAtom (JStr ("Servidor " +:+ ToString serverName +:+ " no encontrado"))) ]) ])));;
  if success
  then logger info (LogClientConnected serverName)
  else logger warn (LogClientFailed serverName).

(** What [JSON.parse(msg)] followed by the destructuring [{ type, data }]
    yields: a [SyntaxError] for text that is not JSON, a [TypeError] for
    the text [null], and otherwise the two properties. *)
Inductive message :=
  | NotJSON
  | NullJSON
  | Frame (type : jsval) (data : option object).

Definition JSON_parse (msg : message) : M (jsval * option object) :=
  match msg with
  | NotJSON => throw SyntaxError
  | NullJSON => throw TypeError
  | Frame type data => mret (type, data)
  end.

(** [ws.on('message', ...)]. The warning of the [default] branch prints
    [typeStr], that is [MessageTypes[type]]; its record [LogUnhandledType]
    keeps the [type] it is computed from. *)
Definition on_message (w : ws) (msg : message) : M unit :=
  try_catch
    ('(type, data) ← JSON_parse msg;
     let typeStr := MessageTypes_at type in
     if decide (typeStr = Some (JStr "SERVER_CONNECT")) then
       handleServerConnect w data
     else if decide (typeStr = Some (JStr "CLIENT_CONNECT")) then
       context ← get_context w;
       if negb (authenticated context) then
         logger warn LogClientUnauthenticated
       else
         handleClientConnect w data
     else
       logger warn (LogUnhandledType type))
    (λ e, logger error LogProcessingError).

(** [ws.on('close', ...)] *)
Definition on_close (w : ws) : M unit :=
  context ← get_context w;
  servers ← get_servers;
  put_servers (Map_delete servers (serverName context));;
  logger info (LogClosed (serverName context));;
  printState.

(** [wss.on('connection', ...)]: a fresh context for the new connection. *)
Definition on_connection (w : ws) : M unit :=
  logger info LogOpened;;
  put_context w (Context (JStr "UnknownServer") false).

(** [sendMessageToServer(name, msg)]; the function has no [return]. *)
Definition sendMessageToServer (name : jsval) (msg : json) : M jsval :=
  servers ← get_servers;
  match Map_get servers name with
  | Some w =>
      ws_send w msg;;
      logger info (LogSent name msg);;
      mret JUndefined
  | None =>
      logger warn (LogNotFound name);;
      mret JUndefined
  end.

Definition getConnectedServerNames : M (list jsval) :=
  servers ← get_servers;
  mret (Map_keys servers).

(** *** The hub as a state machine *)

Inductive event :=
  | Connection (w : ws)
  | Message (w : ws) (msg : message)
  | Closed (w : ws)
  | Relay (name : jsval) (msg : json).

Definition run {A} (m : M A) (h : hub) : hub * list effect :=
  let '(h', out, _) := m h in (h', out).

(** Messages and the close event are delivered to open connections only;
    after its close event a connection receives nothing more. Every
    [Connection] brings a connection of its own. *)
Definition hub_step (h : hub) (e : event) : hub * list effect :=
  match e with
  | Connection w => run (on_connection w) h
  | Message w msg =>
      if decide (is_Some (contexts h !! w)) then run (on_message w msg) h
      else (h, [])
  | Closed w =>
      if decide (is_Some (contexts h !! w)) then
        let '(h', out) := run (on_close w) h in
        (Hub (connectedServers h') (delete w (contexts h')), out)
      else (h, [])
  | Relay name msg => run (sendMessageToServer name msg) h
  end.

Fixpoint hub_run (h : hub) (es : list event) : hub * list effect :=
  match es with
  | [] => (h, [])
  | e :: es' =>
      let '(h1, out1) := hub_step h e in
      let '(h2, out2) := hub_run h1 es' in
      (h2, out1 ++ out2)
  end.

Definition hub_init : hub := Hub [] ∅.

(** ** middlewares/requireGameServer.js *)

(** What a middleware does with a request: it answers, or hands over to the
    next handler. *)
Inductive middleware_result :=
  | Respond (status : Z) (body : json)
  | Next.

(** [x_gs_token] is [req.header('x-gs-token')], [None] when the header is
    absent. The module keeps the value that [process.env.GAME_SERVER_TOKEN]
    had when it was loaded. *)
Definition requireGameServer (x_gs_token : option string) : middleware_result :=
  let token := from_option JStr JUndefined x_gs_token in
  if negb (truthy token) then
    Respond 401 (JObject [ ("success", JAtom (JBool false));
                           ("message", JAtom (JStr "Missing x-gs-token")) ])
  else if negb (bool_decide (token = process_env_GAME_SERVER_TOKEN)) then
    Respond 403 (JObject [ ("success", JAtom (JBool false));
                           ("message", JAtom (JStr "Invalid game server token")) ])
  else Next.

(** ** services/authService.js: the two callers of the hub *)

(** [servers()] *)
Definition servers : M (list json) :=
  names ← getConnectedServerNames;
  mret (map (λ n, JObject [ ("id", JAtom n); ("name", JAtom n) ]) names).

(** The fields of a user document that [login] reads. *)
Record user_doc := {
  _id : string;
  password : string;
}.

(** The collaborators of [login], as they answer at the time of the call:
    [User.findOne({ username })], [bcrypt.compare(password, hash)] and
    [jwt.sign({ id, username }, JWT_SECRET, { expiresIn: '1h' })]. *)
Variable User_findOne : string → option user_doc.
Variable bcrypt_compare : string → string → bool.
Variable jwt_sign : string → string → string.

(** How the promise of [login] settles. *)
Inductive login_result :=
  | Rejected (message : string)
  | RejectedWith (e : exn)
  | Resolved (id username token : string).

(** What [login] does besides: the effects of the hub, and its own log
    line. *)
Inductive login_effect :=
  | OfHub (e : effect)
  | LogLoginOk (serverName : string).

(** [login({ username, password, serverName })]; the controller hands it
    three strings. The hub is the one the function finds when, after its
    [await]s, it reaches [sendMessageToServer]. *)
Definition login (username pass serverName : string)
    (h : hub) : hub * list login_effect * login_result :=
  match User_findOne username with
  | None => (h, [], Rejected "Credenciales inválidas")
  | Some user =>
      if negb (bcrypt_compare pass (password user)) then
        (h, [], Rejected "Credenciales inválidas")
      else
        let token := jwt_sign (_id user) username in
        match sendMessageToServer (JStr serverName)
                (JObject
                   [ ("type", JAtom (JStr "USER_CONNECTED"));
                     ("data", JObject [ ("username", JAtom (JStr username));
                                        ("token", JAtom (JStr token)) ]) ]) h with
        | (h', out, Throw e) => (h', OfHub <$> out, RejectedWith e)
        | (h', out, Ok _) =>
            (h', (OfHub <$> out) ++ [LogLoginOk serverName], Resolved (_id user) username token)
        end
  end.

(** ** Vocabulary of the statements *)

(** The hub that a run of events from the empty hub ends in. *)
Definition reached (es : list event) : hub := (hub_run hub_init es).1.

(** The secret is not configured: the variable is unset or empty. *)
Definition unconfigured : Prop :=
  GAME_SERVER_TOKEN = None ∨ GAME_SERVER_TOKEN = Some "".

(** A token that is not the configured secret: no secret is configured, the
    token is missing or empty, or it is a string other than the secret. *)
Definition invalid_token (token : jsval) : Prop :=
  unconfigured ∨ truthy token = false ∨ ∃ t, token = JStr t ∧ GAME_SERVER_TOKEN ≠ Some t.

(** The two frames that answer a SERVER_CONNECT. *)
Definition registered_reply (name : jsval) : json :=
  JObject
    [ ("type", JAtom (JStr "SERVER_CONNECT_RESULT"));
      ("data", JObject
         [ ("message", JAtom (JStr ("Servidor " +:+ ToString name +:+ " registrado correctamente")));
           ("server_id", JAtom name) ]);
      ("success", JAtom (JBool true)) ].

Definition auth_failed_reply (name : jsval) : json :=
  JObject
    [ ("type", JAtom (JStr "SERVER_CONNECT_RESULT"));
      ("data", JObject
         [ ("message", JAtom (JStr ("Autenticación fallida para " +:+ ToString name))) ]);
      ("success", JAtom (JBool false)) ].

(** The name a SERVER_CONNECT asks for on connection [w]. *)
Definition requested_name (w : ws) (data : option object) (h : hub) : jsval :=
  js_or (opt_prop data "name") (serverName (contexts h !!! w)).

(** The hub once [w] is registered under [name]. *)
Definition registered (w : ws) (name : jsval) (h : hub) : hub :=
  Hub (Map_set (connectedServers h) name w) (<[w := Context name true]> (contexts h)).

(** The two frames that answer a CLIENT_CONNECT. *)
Definition client_found_reply : json :=
  JObject
    [ ("type", JAtom (JStr "CLIENT_CONNECT"));
      ("data", JObject [ ("token", JAtom (JStr "token")) ]) ].

Definition client_not_found_reply (name : jsval) : json :=
  JObject
    [ ("type", JAtom (JStr "CLIENT_CONNECT"));
      ("data", JObject
         [ ("message", JAtom (JStr ("Servidor " +:+ ToString name +:+ " no encontrado"))) ]) ].

(** The frames sent on connection [w], in order, and whether [w.close()]
    was called. *)
Definition sent (w : ws) (out : list effect) : list json :=
  omap (λ e, match e with
             | Send w' frame => if decide (w' = w) then Some frame else None
             | _ => None
             end) out.

Definition closes (w : ws) (out : list effect) : bool :=
  existsb (λ e, match e with Close w' => bool_decide (w' = w) | _ => false end) out.

(** A connection that has not authenticated still carries the name its
    context was created with. *)
Definition default_name_inv (h : hub) : Prop :=
  ∀ w ctx, contexts h !! w = Some ctx → authenticated ctx = false →
    serverName ctx = JStr "UnknownServer".

(** No context and no registry entry carries a name that JavaScript takes
    for false ([undefined], [null], [false], [0], the empty string). *)
Definition truthy_names_inv (h : hub) : Prop :=
  (∀ w ctx, contexts h !! w = Some ctx → truthy (serverName ctx) = true)
  ∧ Forall (λ name, truthy name = true) (Map_keys (connectedServers h)).

(** The entry of [servers()] for a name. *)
Definition server_entry (name : jsval) : json :=
  JObject [ ("id", JAtom name); ("name", JAtom name) ].

(** The frame that [login] relays. *)
Definition USER_CONNECTED_frame (username token : string) : json :=
  JObject
    [ ("type", JAtom (JStr "USER_CONNECTED"));
      ("data", JObject [ ("username", JAtom (JStr username));
                         ("token", JAtom (JStr token)) ]) ].

(** The frames that a run of [login] sends on connection [w]. *)
Definition login_sent (w : ws) (out : list login_effect) : list json :=
  sent w (omap (λ e, match e with OfHub e' => Some e' | _ => None end) out).

(** ** Scenarios

    World servers that register as ["Zone1"] with the secret ["s3cret"], on
    connections numbered from 1. *)

Definition s3cret : option string := Some "s3cret".

Definition SERVER_CONNECT (name token : string) : message :=
  Frame (JNum 1) (Some [("name", JStr name); ("token", JStr token)]).

Definition CLIENT_CONNECT (serverName : string) : message :=
  Frame (JNum 2) (Some [("serverName", JStr serverName)]).

Definition USER_CONNECTED : json :=
  JObject
    [ ("type", JAtom (JStr "USER_CONNECTED"));
      ("data", JObject [ ("username", JAtom (JStr "bob")); ("token", JAtom (JStr "t")) ]) ].

(** One connection is open; two connections are open. *)
Definition one_open : list event := [Connection 1%nat].
Definition two_open : list event := [Connection 1%nat; Connection 2%nat].

(** Both connections register as Zone1, connection 2 last. *)
Definition Zone1_twice : list event :=
  two_open ++
  [Message 1%nat (SERVER_CONNECT "Zone1" "s3cret");
   Message 2%nat (SERVER_CONNECT "Zone1" "s3cret")].

(** Connection 1 sends a SERVER_CONNECT without a name and so registers under
    its context name; connection 2 sends nothing. *)
Definition UnknownServer_taken : list event :=
  two_open ++ [Message 1%nat (Frame (JNum 1) (Some [("token", JStr "s3cret")]))].

(** A user [bob] with the password ["hunter22"], and collaborators of
    [login] that know him. *)
Definition bob : user_doc := {| _id := "42"; password := "$2b$10$hash" |}.

Definition users (username : string) : option user_doc :=
  if decide (username = "bob") then Some bob else None.

Definition check_password (pass hash : string) : bool :=
  bool_decide (pass = "hunter22" ∧ hash = password bob).

Definition sign (id username : string) : string := "jwt:" +:+ id +:+ ":" +:+ username.

(** Three invalid requests block an address for a quarter of an hour. *)
Definition three_strikes : ipBlocker_config :=
  {| BLOCK_DURATION_MINUTES := 15; MAX_INVALID_ATTEMPTS := 3 |}.

Definition nobody_blocked : ipBlocker := IpBlocker ∅ ∅.

(** * Properties *)

(** ** Values and buffers *)

Lemma truthy_JStr s : truthy (JStr s) = true ↔ s ≠ "".
Proof.
  simpl. destruct (String.eqb_spec s ""); simpl; split; congruence.
Qed.

Lemma js_or_truthy a b : truthy a = true → js_or a b = a.
Proof. unfold js_or. by intros ->. Qed.

Lemma js_or_falsy a b : truthy a = false → js_or a b = b.
Proof. unfold js_or. by intros ->. Qed.

Lemma length_list_byte_of_string s :
  length (String.list_byte_of_string s) = String.length s.
Proof.
  unfold String.list_byte_of_string. rewrite length_map.
  induction s as [|c s IH]; simpl; congruence.
Qed.

Lemma list_byte_of_string_inj s t :
  String.list_byte_of_string s = String.list_byte_of_string t → s = t.
Proof.
  intros E. rewrite <- (String.string_of_list_byte_of_string s),
    <- (String.string_of_list_byte_of_string t). by rewrite E.
Qed.

Lemma unconfigured_falsy : unconfigured → truthy process_env_GAME_SERVER_TOKEN = false.
Proof. unfold process_env_GAME_SERVER_TOKEN. by intros [-> | ->]. Qed.

Lemma configured_truthy s :
  GAME_SERVER_TOKEN = Some s → s ≠ "" → truthy process_env_GAME_SERVER_TOKEN = true.
Proof.
  unfold process_env_GAME_SERVER_TOKEN. intros -> ?. by apply truthy_JStr.
Qed.

(** ** The [Map] operations *)

Lemma Map_get_set_eq m k v : Map_get (Map_set m k v) k = Some v.
Proof.
  induction m as [|[k' v'] m IH]; simpl.
  - by rewrite decide_True.
  - destruct (decide (k' = k)) as [->|Hne]; simpl.
    + by rewrite decide_True.
    + by rewrite decide_False.
Qed.

Lemma Map_get_set_ne m k k' v : k ≠ k' → Map_get (Map_set m k v) k' = Map_get m k'.
Proof.
  intros Hne. induction m as [|[k0 v0] m IH]; simpl.
  - by rewrite decide_False.
  - destruct (decide (k0 = k)) as [->|Hne0]; simpl.
    + by rewrite !decide_False.
    + by rewrite IH.
Qed.

Lemma Map_get_delete_eq m k : Map_get (Map_delete m k) k = None.
Proof.
  induction m as [|[k' v'] m IH]; simpl; [done|].
  destruct (decide (k' = k)) as [->|Hne]; simpl; [done|].
  by rewrite decide_False.
Qed.

Lemma Map_get_delete_ne m k k' : k ≠ k' → Map_get (Map_delete m k) k' = Map_get m k'.
Proof.
  intros Hne. induction m as [|[k0 v0] m IH]; simpl; [done|].
  destruct (decide (k0 = k)) as [->|Hne0]; simpl.
  - by rewrite decide_False.
  - by rewrite IH.
Qed.

Lemma Map_delete_absent m k : Map_get m k = None → Map_delete m k = m.
Proof.
  induction m as [|[k' v'] m IH]; simpl; [done|].
  destruct (decide (k' = k)); [done|]. intros H. by rewrite IH.
Qed.

Lemma elem_of_Map_keys m k : k ∈ Map_keys m ↔ is_Some (Map_get m k).
Proof.
  unfold Map_keys. induction m as [|[k' v'] m IH]; csimpl.
  - rewrite elem_of_nil. split; [done|]. by intros [? ?].
  - rewrite elem_of_cons, IH. destruct (decide (k' = k)) as [->|Hne].
    + split; eauto.
    + split; [intros [?|?]; congruence || done | auto].
Qed.

Lemma Map_delete_unchanged m k : Map_delete m k = m ↔ Map_get m k = None.
Proof.
  split; [|apply Map_delete_absent].
  intros E. rewrite <- E. apply Map_get_delete_eq.
Qed.

Lemma Map_keys_delete m k k' : k' ∈ Map_keys (Map_delete m k) → k' ∈ Map_keys m.
Proof.
  rewrite !elem_of_Map_keys. destruct (decide (k = k')) as [->|Hne].
  - rewrite Map_get_delete_eq. by intros [? ?].
  - by rewrite Map_get_delete_ne.
Qed.

(** A [Map] never holds a key twice, and the operations keep it so. *)
Lemma Map_keys_set m k v :
  Map_keys (Map_set m k v) = if decide (k ∈ Map_keys m) then Map_keys m else Map_keys m ++ [k].
Proof.
  unfold Map_keys. induction m as [|[k' v'] m IH]; csimpl; [done|].
  destruct (decide (k' = k)) as [->|Hne]; csimpl.
  - rewrite decide_True; [done | by left].
  - rewrite IH. destruct (decide (k ∈ m.*1)) as [Hin|Hout].
    + rewrite decide_True; [done | by right].
    + rewrite decide_False; [done|]. rewrite elem_of_cons. intros [?|?]; congruence.
Qed.

Lemma Map_set_NoDup m k v : NoDup (Map_keys m) → NoDup (Map_keys (Map_set m k v)).
Proof.
  intros Hnd. rewrite Map_keys_set. case_decide; [done|].
  apply NoDup_app. split_and!; [done | | apply NoDup_singleton].
  intros x Hx Hk. apply list_elem_of_singleton in Hk. by subst.
Qed.

Lemma Map_delete_NoDup m k : NoDup (Map_keys m) → NoDup (Map_keys (Map_delete m k)).
Proof.
  unfold Map_keys. induction m as [|[k' v'] m IH]; csimpl; [done|].
  rewrite NoDup_cons. intros [Hk' Hnd]. destruct (decide (k' = k)); csimpl; [auto|].
  apply NoDup_cons. split; [|auto].
  intros Hin. apply Hk'. by apply (Map_keys_delete m k).
Qed.

(** ** The message-type table *)

Lemma MessageTypes_unfold :
  MessageTypes =
    <["4" := JStr "USER_CONNECTED"]> (<["3" := JStr "SERVER_CONNECT_RESULT"]>
    (<["2" := JStr "CLIENT_CONNECT"]> (<["1" := JStr "SERVER_CONNECT"]>
    (<["SERVER_CONNECT" := JNum 1]> (<["CLIENT_CONNECT" := JNum 2]>
    (<["SERVER_CONNECT_RESULT" := JNum 3]> (<["USER_CONNECTED" := JNum 4]> ∅))))))).
Proof. reflexivity. Qed.

Lemma MessageTypes_lookup_name (k name : string) :
  MessageTypes !! k = Some (JStr name) ↔
  (k, name) ∈ [("1", "SERVER_CONNECT"); ("2", "CLIENT_CONNECT");
               ("3", "SERVER_CONNECT_RESULT"); ("4", "USER_CONNECTED")].
Proof.
  rewrite MessageTypes_unfold, !lookup_insert_Some, lookup_empty.
  rewrite !elem_of_cons, elem_of_nil. naive_solver.
Qed.

(** Which values name the property [pretty n] of an object. *)
Lemma ToString_id (type : jsval) (n : Z) :
  pretty n ∉ ["undefined"; "null"; "true"; "false"] →
  ToString type = pretty n ↔ type = JNum n ∨ type = JStr (pretty n).
Proof.
  intros Hk. split; [|by intros [-> | ->]].
  rewrite !not_elem_of_cons in Hk. destruct Hk as (? & ? & ? & ? & _).
  destruct type as [| |[]|m|s]; simpl; intros E; try congruence.
  - left. f_equal. by apply (inj pretty).
  - right. by f_equal.
Qed.

Lemma MessageTypes_at_SERVER_CONNECT type :
  MessageTypes_at type = Some (JStr "SERVER_CONNECT") ↔ type = JNum 1 ∨ type = JStr "1".
Proof.
  unfold MessageTypes_at. rewrite MessageTypes_lookup_name.
  rewrite <- (ToString_id type 1) by (change (pretty 1) with "1"; set_solver).
  rewrite !elem_of_cons, elem_of_nil. change (pretty 1) with "1". split.
  - intros [E|[E|[E|[E|[]]]]]; by inversion E.
  - intros ->. by left.
Qed.

Lemma MessageTypes_at_CLIENT_CONNECT type :
  MessageTypes_at type = Some (JStr "CLIENT_CONNECT") ↔ type = JNum 2 ∨ type = JStr "2".
Proof.
  unfold MessageTypes_at. rewrite MessageTypes_lookup_name.
  rewrite <- (ToString_id type 2) by (change (pretty 2) with "2"; set_solver).
  rewrite !elem_of_cons, elem_of_nil. change (pretty 2) with "2". split.
  - intros [E|[E|[E|[E|[]]]]]; by inversion E.
  - intros ->. right. by left.
Qed.

Lemma reply_type_3 : reply_type 3 = JAtom (JStr "SERVER_CONNECT_RESULT").
Proof. reflexivity. Qed.

Lemma reply_type_2 : reply_type 2 = JAtom (JStr "CLIENT_CONNECT").
Proof. reflexivity. Qed.

(** ** [isValidToken] *)

Lemma isValidToken_falsy token h :
  truthy token = false ∨ unconfigured →
  isValidToken token h = (h, [], Ok false).
Proof.
  unfold isValidToken. intros [Ht | Hu].
  - by rewrite Ht.
  - by rewrite (unconfigured_falsy Hu), orb_true_r.
Qed.

Lemma isValidToken_string s t h :
  GAME_SERVER_TOKEN = Some s → s ≠ "" → t ≠ "" →
  isValidToken (JStr t) h =
    if decide (String.length t = String.length s)
    then (h, [TimingSafeEqual (String.list_byte_of_string t) (String.list_byte_of_string s)],
          Ok (bool_decide (t = s)))
    else (h, [], Ok false).
Proof.
  intros Hs Hs0 Ht0. unfold isValidToken.
  rewrite (configured_truthy s Hs Hs0), (proj2 (truthy_JStr t) Ht0). simpl.
  unfold process_env_GAME_SERVER_TOKEN. rewrite Hs. simpl.
  unfold mbind, M_bind, mret, M_ret. simpl.
  rewrite !length_list_byte_of_string.
  case_bool_decide as Hlen; simpl.
  - rewrite decide_True by done.
    unfold crypto_timingSafeEqual, mbind, M_bind, emit, mret, M_ret. simpl.
    rewrite !length_list_byte_of_string, decide_True by done. simpl.
    do 3 f_equal. apply bool_decide_ext. split; [apply list_byte_of_string_inj | congruence].
  - by rewrite decide_False.
Qed.

Lemma isValidToken_not_string s token h :
  GAME_SERVER_TOKEN = Some s → s ≠ "" → truthy token = true → (∀ t, token ≠ JStr t) →
  isValidToken token h = (h, [], Throw TypeError).
Proof.
  intros Hs Hs0 Ht Hns. unfold isValidToken.
  rewrite (configured_truthy s Hs Hs0), Ht. simpl.
  destruct token as [| |b|n|t]; try done. by destruct (Hns t).
Qed.

Lemma isValidToken_pure token h :
  ∃ out r, isValidToken token h = (h, out, r).
Proof.
  destruct (truthy token) eqn:Ht; [|rewrite isValidToken_falsy; eauto].
  destruct GAME_SERVER_TOKEN as [s|] eqn:Hs;
    [|rewrite isValidToken_falsy; [eauto | right; by left]].
  destruct (decide (s = "")) as [->|Hs0];
    [rewrite isValidToken_falsy; [eauto | right; by right]|].
  destruct token as [| |b|n|t].
  1-4: erewrite isValidToken_not_string; eauto; done.
  erewrite isValidToken_string; eauto; [case_decide; eauto|].
  by apply truthy_JStr.
Qed.

(** ** The handlers *)

Lemma handleServerConnect_run w data h out r :
  isValidToken (opt_prop data "token") h = (h, out, r) →
  handleServerConnect w data h =
    let name := requested_name w data h in
    match r with
    | Throw e => (h, out, Throw e)
    | Ok false =>
        (h, out ++ [Send w (auth_failed_reply name); Log warn (LogAuthFailed name); Close w], Ok tt)
    | Ok true =>
        (registered w name h,
         out ++ [Send w (registered_reply name); Log info (LogServerConnected name);
                 Log info (LogState (Map_keys (Map_set (connectedServers h) name w)))],
         Ok tt)
    end.
Proof.
  intros Hv. unfold handleServerConnect, requested_name, registered.
  rewrite reply_type_3. unfold mbind at 1. unfold M_bind, get_context.
  unfold mbind at 1. unfold M_bind. rewrite Hv.
  by destruct r as [[]|e].
Qed.

Lemma handleClientConnect_run w data h :
  handleClientConnect w data h =
    let name := opt_prop data "serverName" in
    match Map_get (connectedServers h) name with
    | Some _ => (h, [Send w client_found_reply; Log info (LogClientConnected name)], Ok tt)
    | None => (h, [Send w (client_not_found_reply name); Log warn (LogClientFailed name)], Ok tt)
    end.
Proof.
  unfold handleClientConnect. rewrite reply_type_2.
  unfold mbind at 1. unfold M_bind, get_servers.
  by destruct (Map_get (connectedServers h) (opt_prop data "serverName")).
Qed.

Lemma on_message_SERVER_CONNECT w type data h out r :
  MessageTypes_at type = Some (JStr "SERVER_CONNECT") →
  isValidToken (opt_prop data "token") h = (h, out, r) →
  on_message w (Frame type data) h =
    let name := requested_name w data h in
    match r with
    | Throw e => (h, out ++ [Log error LogProcessingError], Ok tt)
    | Ok false =>
        (h, out ++ [Send w (auth_failed_reply name); Log warn (LogAuthFailed name); Close w], Ok tt)
    | Ok true =>
        (registered w name h,
         out ++ [Send w (registered_reply name); Log info (LogServerConnected name);
                 Log info (LogState (Map_keys (Map_set (connectedServers h) name w)))],
         Ok tt)
    end.
Proof.
  intros Hty Hv. unfold on_message, try_catch, JSON_parse.
  unfold mbind at 1. unfold M_bind, mret, M_ret.
  rewrite decide_True by done.
  rewrite (handleServerConnect_run w data h out r Hv).
  by destruct r as [[]|e].
Qed.

Lemma on_message_CLIENT_CONNECT w type data h :
  MessageTypes_at type = Some (JStr "CLIENT_CONNECT") →
  on_message w (Frame type data) h =
    if authenticated (contexts h !!! w) then handleClientConnect w data h
    else (h, [Log warn LogClientUnauthenticated], Ok tt).
Proof.
  intros Hty. unfold on_message, try_catch, JSON_parse.
  unfold mbind at 1. unfold M_bind, mret, M_ret.
  rewrite decide_False by (rewrite Hty; congruence).
  rewrite decide_True by done.
  unfold mbind at 1. unfold M_bind, get_context.
  destruct (authenticated (contexts h !!! w)); simpl; [|done].
  rewrite handleClientConnect_run. simpl.
  by destruct (Map_get (connectedServers h) (opt_prop data "serverName")).
Qed.

Lemma on_message_unhandled w type data h :
  MessageTypes_at type ≠ Some (JStr "SERVER_CONNECT") →
  MessageTypes_at type ≠ Some (JStr "CLIENT_CONNECT") →
  on_message w (Frame type data) h = (h, [Log warn (LogUnhandledType type)], Ok tt).
Proof.
  intros H1 H2. unfold on_message, try_catch, JSON_parse.
  unfold mbind at 1. unfold M_bind, mret, M_ret.
  by rewrite !decide_False by done.
Qed.

Lemma on_message_unparsed w msg h :
  msg = NotJSON ∨ msg = NullJSON →
  on_message w msg h = (h, [Log error LogProcessingError], Ok tt).
Proof. by intros [-> | ->]. Qed.

Lemma on_close_run w h :
  on_close w h =
    let name := serverName (contexts h !!! w) in
    let servers := Map_delete (connectedServers h) name in
    (Hub servers (contexts h), [Log info (LogClosed name); Log info (LogState (Map_keys servers))], Ok tt).
Proof. reflexivity. Qed.

Lemma sendMessageToServer_run name msg h :
  sendMessageToServer name msg h =
    match Map_get (connectedServers h) name with
    | Some w => (h, [Send w msg; Log info (LogSent name msg)], Ok JUndefined)
    | None => (h, [Log warn (LogNotFound name)], Ok JUndefined)
    end.
Proof.
  unfold sendMessageToServer. unfold mbind at 1. unfold M_bind, get_servers.
  by destruct (Map_get (connectedServers h) name).
Qed.

(** ** Steps of the hub *)

(** A message changes the hub only by registering its connection, and only
    after [isValidToken] has accepted the token. *)
Lemma on_message_state w msg h h' out r :
  on_message w msg h = (h', out, r) →
  h' = h ∨
  ∃ type data calls,
    msg = Frame type data ∧
    isValidToken (opt_prop data "token") h = (h, calls, Ok true) ∧
    h' = registered w (requested_name w data h) h.
Proof.
  destruct msg as [| |type data].
  1-2: rewrite on_message_unparsed by auto; intros [= <- _ _]; by left.
  destruct (decide (MessageTypes_at type = Some (JStr "SERVER_CONNECT"))) as [H1|H1].
  - destruct (isValidToken_pure (opt_prop data "token") h) as (calls & v & Hv).
    rewrite (on_message_SERVER_CONNECT w type data h calls v H1 Hv).
    destruct v as [[]|e]; simpl; intros [= <- _ _]; eauto 10.
  - destruct (decide (MessageTypes_at type = Some (JStr "CLIENT_CONNECT"))) as [H2|H2].
    + rewrite on_message_CLIENT_CONNECT by done.
      rewrite handleClientConnect_run. simpl.
      destruct (authenticated (contexts h !!! w)),
        (Map_get (connectedServers h) (opt_prop data "serverName"));
        intros [= <- _ _]; by left.
    + rewrite on_message_unhandled by done. intros [= <- _ _]; by left.
Qed.

Lemma hub_step_Message w msg h ctx :
  contexts h !! w = Some ctx →
  hub_step h (Message w msg) = run (on_message w msg) h.
Proof. intros Hw. unfold hub_step. by rewrite decide_True by eauto. Qed.

Lemma hub_step_Closed w h ctx :
  contexts h !! w = Some ctx →
  hub_step h (Closed w) =
    let servers := Map_delete (connectedServers h) (serverName ctx) in
    (Hub servers (delete w (contexts h)),
     [Log info (LogClosed (serverName ctx)); Log info (LogState (Map_keys servers))]).
Proof.
  intros Hw. unfold hub_step. rewrite decide_True by eauto.
  unfold run. rewrite on_close_run. simpl.
  by rewrite (lookup_total_correct _ _ _ Hw).
Qed.

(** What a step does to the registry: a registration, a deletion, or nothing. *)
Lemma hub_step_servers h e :
  let servers' := connectedServers (hub_step h e).1 in
  servers' = connectedServers h
  ∨ (∃ w data calls,
       isValidToken (opt_prop data "token") h = (h, calls, Ok true) ∧
       servers' = Map_set (connectedServers h) (requested_name w data h) w)
  ∨ (∃ name, servers' = Map_delete (connectedServers h) name).
Proof.
  destruct e as [w|w msg|w|name msg]; cbv beta iota zeta delta [hub_step].
  - by left.
  - case_decide as Hw; [|by left]. unfold run.
    destruct (on_message w msg h) as [[h' out] r] eqn:E.
    apply on_message_state in E as [->|(type & data & calls & _ & Hv & ->)]; [by left|].
    right; left. eauto.
  - case_decide as Hw; [|by left]. right; right. eauto.
  - unfold run. rewrite sendMessageToServer_run.
    destruct (Map_get _ _); by left.
Qed.

Lemma hub_step_default_name h e :
  default_name_inv h → default_name_inv (hub_step h e).1.
Proof.
  intros Hinv. destruct e as [w|w msg|w|name msg]; cbv beta iota zeta delta [hub_step].
  - intros w' ctx. simpl. destruct (decide (w = w')) as [->|Hne].
    + rewrite lookup_insert_eq. by intros [= <-].
    + rewrite lookup_insert_ne by done. apply Hinv.
  - case_decide as Hw; [|done]. unfold run.
    destruct (on_message w msg h) as [[h' out] r] eqn:E.
    apply on_message_state in E as [->|(type & data & calls & _ & _ & ->)]; [done|].
    intros w' ctx. simpl. destruct (decide (w = w')) as [->|Hne].
    + rewrite lookup_insert_eq. by intros [= <-].
    + rewrite lookup_insert_ne by done. apply Hinv.
  - case_decide as Hw; [|done]. unfold run. rewrite on_close_run.
    intros w' ctx. simpl. destruct (decide (w = w')) as [->|Hne].
    + by rewrite lookup_delete_eq.
    + rewrite lookup_delete_ne by done. apply Hinv.
  - unfold run. rewrite sendMessageToServer_run.
    by destruct (Map_get _ _).
Qed.

Lemma hub_run_cons h e es :
  hub_run h (e :: es) =
    ((hub_run (hub_step h e).1 es).1, (hub_step h e).2 ++ (hub_run (hub_step h e).1 es).2).
Proof.
  simpl. destruct (hub_step h e) as [h1 out1]. simpl.
  by destruct (hub_run h1 es) as [h2 out2].
Qed.

Lemma hub_run_default_name h es :
  default_name_inv h → default_name_inv (hub_run h es).1.
Proof.
  revert h. induction es as [|e es IH]; intros h Hinv; [done|].
  rewrite hub_run_cons. simpl. by apply IH, hub_step_default_name.
Qed.

Lemma hub_init_default_name : default_name_inv hub_init.
Proof. intros w ctx. simpl. by rewrite lookup_empty. Qed.

(** The registry of a hub reached from the empty one holds no name twice. *)
Lemma reached_NoDup es : NoDup (Map_keys (connectedServers (reached es))).
Proof.
  unfold reached.
  cut (∀ h, NoDup (Map_keys (connectedServers h)) →
            NoDup (Map_keys (connectedServers (hub_run h es).1)));
    [intros H; apply H; constructor|].
  induction es as [|e es IH]; intros h Hh; [done|].
  rewrite hub_run_cons. simpl. apply IH.
  destruct (hub_step_servers h e) as [-> | [(w & data & calls & _ & ->) | [k ->]]];
    [done | by apply Map_set_NoDup | by apply Map_delete_NoDup].
Qed.

(** ** Authentication *)

Lemma isValidToken_secret s h :
  GAME_SERVER_TOKEN = Some s → s ≠ "" →
  isValidToken (JStr s) h =
    (h, [TimingSafeEqual (String.list_byte_of_string s) (String.list_byte_of_string s)], Ok true).
Proof.
  intros Hs Hs0. rewrite (isValidToken_string s s h Hs Hs0 Hs0).
  by rewrite decide_True, bool_decide_eq_true_2.
Qed.

Lemma isValidToken_invalid token h :
  invalid_token token →
  ∃ calls, isValidToken token h = (h, calls, Ok false)
           ∧ ∀ e, e ∈ calls → ∃ a b, e = TimingSafeEqual a b.
Proof.
  assert (∀ e : effect, e ∈ [] → ∃ a b, e = TimingSafeEqual a b) as Hnil
    by (intros e He; by apply elem_of_nil in He).
  intros [Hu | [Hf | (t & -> & Hne)]].
  - exists []. by rewrite isValidToken_falsy by auto.
  - exists []. by rewrite isValidToken_falsy by auto.
  - destruct GAME_SERVER_TOKEN as [s|] eqn:Hs;
      [|exists []; rewrite isValidToken_falsy; [done | right; by left]].
    destruct (decide (s = "")) as [->|Hs0];
      [exists []; rewrite isValidToken_falsy; [done | right; by right]|].
    destruct (decide (t = "")) as [->|Ht0];
      [exists []; by rewrite isValidToken_falsy by auto|].
    rewrite (isValidToken_string s t h Hs Hs0 Ht0). case_decide.
    + eexists. split.
      * rewrite bool_decide_eq_false_2; [done | congruence].
      * intros e He. apply list_elem_of_singleton in He. eauto.
    + by exists [].
Qed.

(** C6. [isValidToken] leaves the hub alone and hands [crypto.timingSafeEqual]
    two buffers of the same length whenever it calls it. For a string token
    and a secret of different lengths it answers [false] without a call; for
    equal lengths it makes one call, on the bytes of the token and of the
    secret, and answers whether the two are the same. *)
Theorem isValidToken_comparator token h :
  ∃ calls r,
    isValidToken token h = (h, calls, r)
    ∧ (∀ a b, TimingSafeEqual a b ∈ calls → length a = length b)
    ∧ (∀ s t, GAME_SERVER_TOKEN = Some s → token = JStr t →
         String.length t ≠ String.length s →
         calls = [] ∧ r = Ok false)
    ∧ (∀ s t, GAME_SERVER_TOKEN = Some s → token = JStr t → s ≠ "" →
         String.length t = String.length s →
         calls = [TimingSafeEqual (String.list_byte_of_string t) (String.list_byte_of_string s)]
         ∧ r = Ok (bool_decide (t = s))).
Proof.
  assert (∀ s, s ≠ "" → String.length s ≠ 0%nat) as Hlen0 by (by intros [|]).
  destruct (decide (truthy token = false ∨ unconfigured)) as [Hf|Ht].
  { exists [], (Ok false). rewrite isValidToken_falsy by done.
    split_and!; [done | by intros a b ?%elem_of_nil | done |].
    intros s t Hs -> Hs0 Hlen. exfalso.
    destruct Hf as [Hf | [Hu | Hu]]; [|congruence..].
    apply Hlen0 in Hs0. destruct t; [by rewrite <- Hlen in Hs0 | done]. }
  destruct GAME_SERVER_TOKEN as [s|] eqn:Hs; [|destruct Ht; right; by left].
  destruct (decide (s = "")) as [->|Hs0]; [destruct Ht; right; by right|].
  destruct (truthy token) eqn:Htr; [|destruct Ht; by left].
  assert ((∃ t, token = JStr t) ∨ ∀ t, token ≠ JStr t) as [[t ->]|Hns]
    by (destruct token; eauto).
  - apply truthy_JStr in Htr.
    rewrite (isValidToken_string s t h Hs Hs0 Htr).
    destruct (decide (String.length t = String.length s)) as [Hlen|Hlen].
    + eexists _, _. split_and!; [done | | |].
      * intros a b [= -> ->]%list_elem_of_singleton.
        by rewrite !length_list_byte_of_string.
      * by intros ? ? [= <-] [= <-].
      * by intros ? ? [= <-] [= <-].
    + eexists _, _. split_and!; [done | by intros a b ?%elem_of_nil | done |].
      by intros ? ? [= <-] [= <-].
  - exists [], (Throw TypeError).
    rewrite (isValidToken_not_string s token h Hs Hs0 Htr) by done.
    split_and!; [done | by intros a b ?%elem_of_nil | |]; intros ? t _ ->; by destruct (Hns t).
Qed.

(** C9. With the secret unset or empty, or with the token missing or empty,
    [isValidToken] answers [false]. While the secret is unset or empty no
    step of the hub adds or redirects a registry entry, so the registry of a
    hub started empty stays empty whatever is sent to it. *)
Theorem unconfigured_secret_registers_nothing :
  (∀ token h, unconfigured ∨ truthy token = false →
     isValidToken token h = (h, [], Ok false))
  ∧ (unconfigured → ∀ h e name w,
       Map_get (connectedServers (hub_step h e).1) name = Some w →
       Map_get (connectedServers h) name = Some w)
  ∧ (unconfigured → ∀ es, connectedServers (hub_run hub_init es).1 = []).
Proof.
  assert (unconfigured → ∀ h e name w,
       Map_get (connectedServers (hub_step h e).1) name = Some w →
       Map_get (connectedServers h) name = Some w) as Hstep.
  { intros Hu h e name w.
    destruct (hub_step_servers h e) as [-> | [(w' & data & calls & Hv & _) | [k ->]]].
    - done.
    - rewrite isValidToken_falsy in Hv by auto. congruence.
    - destruct (decide (k = name)) as [->|Hne].
      + by rewrite Map_get_delete_eq.
      + by rewrite Map_get_delete_ne. }
  split_and!; [intros token h [?|?]; apply isValidToken_falsy; auto | done |].
  intros Hu es.
  cut (∀ h, connectedServers h = [] → connectedServers (hub_run h es).1 = []); [by intros ->|].
  induction es as [|e es IH]; intros h Hh; [done|].
  rewrite hub_run_cons. simpl. apply IH.
  destruct (connectedServers (hub_step h e).1) as [|[k v] m] eqn:E; [done|].
  specialize (Hstep Hu h e k v). rewrite E, Hh in Hstep. simpl in Hstep.
  rewrite decide_True in Hstep by done. by specialize (Hstep eq_refl).
Qed.

(** C4. A SERVER_CONNECT on an open connection that carries a name and the
    configured secret as its token marks the connection authenticated under
    that name and makes the registry map the name to the connection,
    whatever it mapped the name to before; [getConnectedServerNames] then
    lists the name. *)
Theorem SERVER_CONNECT_registers s w type data name ctx h :
  GAME_SERVER_TOKEN = Some s → s ≠ "" →
  contexts h !! w = Some ctx →
  MessageTypes_at type = Some (JStr "SERVER_CONNECT") →
  opt_prop data "name" = name → truthy name = true →
  opt_prop data "token" = JStr s →
  let h' := (hub_step h (Message w (Frame type data))).1 in
  contexts h' !! w = Some (Context name true)
  ∧ Map_get (connectedServers h') name = Some w
  ∧ ∃ names, getConnectedServerNames h' = (h', [], Ok names) ∧ name ∈ names.
Proof.
  intros Hs Hs0 Hw Hty Hname Htr Htok h'. subst h'.
  rewrite (hub_step_Message w _ h ctx Hw). unfold run.
  rewrite (on_message_SERVER_CONNECT w type data h _ _ Hty)
    by (rewrite Htok; by apply isValidToken_secret).
  unfold requested_name. rewrite Hname, (js_or_truthy _ _ Htr).
  unfold registered. simpl. split_and!.
  - by rewrite lookup_insert_eq.
  - apply Map_get_set_eq.
  - eexists. split; [reflexivity|]. simpl.
    apply elem_of_Map_keys. rewrite Map_get_set_eq. eauto.
Qed.

(** The rejection where the code performs it. A SERVER_CONNECT on an open
    connection whose token fails the guards or the comparison (no secret is
    configured, the token is missing or empty, or it is a string of another
    value or length) is answered with a
    SERVER_CONNECT_RESULT whose [success] is [false], after which the
    connection is closed, and the hub is left as it was. A name that was not
    registered is registered neither then nor after the close event that
    follows. *)
Theorem SERVER_CONNECT_rejected w type data ctx h :
  contexts h !! w = Some ctx →
  MessageTypes_at type = Some (JStr "SERVER_CONNECT") →
  invalid_token (opt_prop data "token") →
  let name := js_or (opt_prop data "name") (serverName ctx) in
  (∃ calls,
     hub_step h (Message w (Frame type data)) =
       (h, calls ++ [Send w (auth_failed_reply name); Log warn (LogAuthFailed name); Close w])
     ∧ ∀ e, e ∈ calls → ∃ a b, e = TimingSafeEqual a b)
  ∧ json_get (auth_failed_reply name) "type" = Some (JAtom (JStr "SERVER_CONNECT_RESULT"))
  ∧ json_get (auth_failed_reply name) "success" = Some (JAtom (JBool false))
  ∧ (∀ k, k ∉ Map_keys (connectedServers h) →
          k ∉ Map_keys (connectedServers (hub_step h (Closed w)).1)).
Proof.
  intros Hw Hty Hinv name. split_and!; [|done..|].
  - destruct (isValidToken_invalid _ h Hinv) as (calls & Hv & Hcalls).
    exists calls. split; [|done].
    rewrite (hub_step_Message w _ h ctx Hw). unfold run.
    rewrite (on_message_SERVER_CONNECT w type data h _ _ Hty Hv).
    unfold requested_name. by rewrite (lookup_total_correct _ _ _ Hw).
  - intros k Hk Hk'. apply Hk. rewrite (hub_step_Closed w h ctx Hw) in Hk'.
    by apply Map_keys_delete in Hk'.
Qed.

(** A SERVER_CONNECT whose token is a number or [true] is not answered:
    [Buffer.from] throws, and the [catch] of the message handler logs the
    error as it does for any frame it cannot process. *)
Lemma SERVER_CONNECT_token_not_a_string s w type data ctx h :
  GAME_SERVER_TOKEN = Some s → s ≠ "" →
  contexts h !! w = Some ctx →
  MessageTypes_at type = Some (JStr "SERVER_CONNECT") →
  truthy (opt_prop data "token") = true → (∀ t, opt_prop data "token" ≠ JStr t) →
  hub_step h (Message w (Frame type data)) = (h, [Log error LogProcessingError]).
Proof.
  intros Hs Hs0 Hw Hty Htr Hns.
  rewrite (hub_step_Message w _ h ctx Hw). unfold run.
  by rewrite (on_message_SERVER_CONNECT w type data h [] (Throw TypeError) Hty)
    by (by apply (isValidToken_not_string s)).
Qed.

(** A SERVER_CONNECT without a name registers the connection under the name
    its context holds, ['UnknownServer'] on a fresh connection. *)
Lemma SERVER_CONNECT_without_name s w type data ctx h :
  GAME_SERVER_TOKEN = Some s → s ≠ "" →
  contexts h !! w = Some ctx →
  MessageTypes_at type = Some (JStr "SERVER_CONNECT") →
  truthy (opt_prop data "name") = false →
  opt_prop data "token" = JStr s →
  (hub_step h (Message w (Frame type data))).1 = registered w (serverName ctx) h.
Proof.
  intros Hs Hs0 Hw Hty Hname Htok.
  rewrite (hub_step_Message w _ h ctx Hw). unfold run.
  rewrite (on_message_SERVER_CONNECT w type data h _ _ Hty)
    by (rewrite Htok; by apply isValidToken_secret).
  unfold requested_name.
  by rewrite (js_or_falsy _ _ Hname), (lookup_total_correct _ _ _ Hw).
Qed.

(** C10. In a hub reached from the empty one, the close of a connection that
    has not authenticated deletes the registry entry of the name
    ['UnknownServer'], whichever connection that entry refers to. The
    registry is therefore left as it was exactly when no server is
    registered under that name. *)
Theorem unauthenticated_close_deletes_UnknownServer es h w ctx :
  reached es = h →
  contexts h !! w = Some ctx → authenticated ctx = false →
  let servers' := connectedServers (hub_step h (Closed w)).1 in
  servers' = Map_delete (connectedServers h) (JStr "UnknownServer")
  ∧ Map_get servers' (JStr "UnknownServer") = None
  ∧ (servers' = connectedServers h ↔ Map_get (connectedServers h) (JStr "UnknownServer") = None).
Proof.
  intros Hrun Hw Hauth servers'. subst servers' h.
  assert (serverName ctx = JStr "UnknownServer") as Hname
    by (by apply (hub_run_default_name hub_init es hub_init_default_name w)).
  rewrite (hub_step_Closed w _ ctx Hw). simpl. rewrite Hname.
  split_and!; [done | apply Map_get_delete_eq | apply Map_delete_unchanged].
Qed.

(** ** Deregistration on close *)

(** C1, as the code has it. When connection [a] registers under a name and
    connection [b] then registers under the same name, the registry maps the
    name to [b]; the close of [a] deletes the entry of [a]'s context name
    without looking at the occupant, so the name is no longer registered
    although [b] is still open and authenticated under it. *)
Theorem stale_close_deletes_entry s a b type data name ctxA ctxB h :
  GAME_SERVER_TOKEN = Some s → s ≠ "" →
  a ≠ b → contexts h !! a = Some ctxA → contexts h !! b = Some ctxB →
  MessageTypes_at type = Some (JStr "SERVER_CONNECT") →
  opt_prop data "name" = name → truthy name = true →
  opt_prop data "token" = JStr s →
  let hA := (hub_step h (Message a (Frame type data))).1 in
  let hB := (hub_step hA (Message b (Frame type data))).1 in
  let hC := (hub_step hB (Closed a)).1 in
  Map_get (connectedServers hB) name = Some b
  ∧ Map_get (connectedServers hC) name = None
  ∧ (name ∉ Map_keys (connectedServers hC))
  ∧ contexts hC !! b = Some (Context name true).
Proof.
  intros Hs Hs0 Hab Ha Hb Hty Hname Htr Htok.
  assert (∀ w ctx h0, contexts h0 !! w = Some ctx →
    (hub_step h0 (Message w (Frame type data))).1 = registered w name h0) as Hreg.
  { intros w ctx h0 Hw. rewrite (hub_step_Message w _ h0 ctx Hw). unfold run.
    rewrite (on_message_SERVER_CONNECT w type data h0 _ _ Hty)
      by (rewrite Htok; by apply isValidToken_secret).
    unfold requested_name. by rewrite Hname, (js_or_truthy _ _ Htr). }
  intros hA hB hC. subst hA hB hC.
  assert (contexts (registered a name h) !! b = Some ctxB) as Hb'
    by (simpl; by rewrite lookup_insert_ne).
  assert (contexts (registered b name (registered a name h)) !! a = Some (Context name true))
    as Ha' by (simpl; by rewrite lookup_insert_ne, lookup_insert_eq).
  rewrite (Hreg a ctxA h Ha), (Hreg b ctxB _ Hb'), (hub_step_Closed a _ _ Ha').
  simpl. split_and!.
  - apply Map_get_set_eq.
  - apply Map_get_delete_eq.
  - rewrite elem_of_Map_keys, Map_get_delete_eq. by intros [? ?].
  - by rewrite lookup_delete_ne, lookup_insert_eq.
Qed.

(** ** Dispatch *)

(** C2, as the code has it. A frame is handed to [handleServerConnect] when
    its [type] is the number 1 or the string ["1"], and to the
    CLIENT_CONNECT branch when it is the number 2 or the string ["2"]. Every
    other [type] is logged as unhandled and changes nothing: that includes
    the four constant names, which the table resolves to numbers, and the
    ids 3 and 4, which it resolves to names the [switch] has no case for. *)
Theorem dispatch_by_id w type data h :
  on_message w (Frame type data) h =
    (if decide (type = JNum 1 ∨ type = JStr "1") then
       try_catch (handleServerConnect w data) (λ _, logger error LogProcessingError) h
     else if decide (type = JNum 2 ∨ type = JStr "2") then
       if authenticated (contexts h !!! w) then handleClientConnect w data h
       else (h, [Log warn LogClientUnauthenticated], Ok tt)
     else (h, [Log warn (LogUnhandledType type)], Ok tt))
  ∧ Forall (λ '(name, id),
       MessageTypes_at (JStr name) = Some id
       ∧ MessageTypes_at id = Some (JStr name)
       ∧ on_message w (Frame (JStr name) data) h =
           (h, [Log warn (LogUnhandledType (JStr name))], Ok tt))
     MessageTypes_literal
  ∧ Forall (λ id,
       on_message w (Frame (JNum id) data) h =
         (h, [Log warn (LogUnhandledType (JNum id))], Ok tt))
     [3; 4].
Proof.
  assert (∀ type, MessageTypes_at type ≠ Some (JStr "SERVER_CONNECT") →
    MessageTypes_at type ≠ Some (JStr "CLIENT_CONNECT") →
    on_message w (Frame type data) h = (h, [Log warn (LogUnhandledType type)], Ok tt))
    as Hother by (intros; by apply on_message_unhandled).
  split_and!.
  - destruct (decide (type = JNum 1 ∨ type = JStr "1")) as [H1|H1].
    + apply MessageTypes_at_SERVER_CONNECT in H1.
      destruct (isValidToken_pure (opt_prop data "token") h) as (calls & v & Hv).
      rewrite (on_message_SERVER_CONNECT w type data h calls v H1 Hv).
      unfold try_catch. rewrite (handleServerConnect_run w data h calls v Hv).
      by destruct v as [[]|e].
    + rewrite <- MessageTypes_at_SERVER_CONNECT in H1.
      destruct (decide (type = JNum 2 ∨ type = JStr "2")) as [H2|H2].
      * apply MessageTypes_at_CLIENT_CONNECT in H2.
        by rewrite on_message_CLIENT_CONNECT.
      * rewrite <- MessageTypes_at_CLIENT_CONNECT in H2. by apply Hother.
  - unfold MessageTypes_literal.
    repeat (constructor;
      [split_and!; [reflexivity | reflexivity | apply Hother; vm_compute; congruence]|]).
    constructor.
  - repeat (constructor; [apply Hother; vm_compute; congruence|]). constructor.
Qed.

(** ** Relay *)

(** C3, as the code has it. [sendMessageToServer] has no result: it returns
    [undefined] whether or not the name is registered, throws nothing and
    leaves the hub as it was. When the registry has the name it sends the
    message on the registered connection and logs at level info; when it
    has not, it sends nothing and logs a warning. *)
Theorem sendMessageToServer_effects name msg h :
  ∃ out,
    sendMessageToServer name msg h = (h, out, Ok JUndefined)
    ∧ match Map_get (connectedServers h) name with
      | Some w => out = [Send w msg; Log info (LogSent name msg)]
      | None => out = [Log warn (LogNotFound name)]
      end.
Proof.
  rewrite sendMessageToServer_run. destruct (Map_get (connectedServers h) name); eauto.
Qed.

(** ** Replies *)

(** C7, as the code has it. The reply to a successful SERVER_CONNECT with
    name [N] is one frame of type SERVER_CONNECT_RESULT. [success: true] is
    a property of the envelope, next to [type] and [data]; the [data] object
    holds the message string and [server_id], equal to [N], and nothing
    else. *)
Theorem SERVER_CONNECT_reply s w type data name ctx h :
  GAME_SERVER_TOKEN = Some s → s ≠ "" →
  contexts h !! w = Some ctx →
  MessageTypes_at type = Some (JStr "SERVER_CONNECT") →
  opt_prop data "name" = name → truthy name = true →
  opt_prop data "token" = JStr s →
  sent w (hub_step h (Message w (Frame type data))).2 = [registered_reply name]
  ∧ json_get (registered_reply name) "type" = Some (JAtom (JStr "SERVER_CONNECT_RESULT"))
  ∧ json_get (registered_reply name) "success" = Some (JAtom (JBool true))
  ∧ json_get (registered_reply name) "data" =
      Some (JObject
        [ ("message", JAtom (JStr ("Servidor " +:+ ToString name +:+ " registrado correctamente")));
          ("server_id", JAtom name) ]).
Proof.
  intros Hs Hs0 Hw Hty Hname Htr Htok. split_and!; [|done..].
  rewrite (hub_step_Message w _ h ctx Hw). unfold run.
  rewrite (on_message_SERVER_CONNECT w type data h _ _ Hty)
    by (rewrite Htok; by apply isValidToken_secret).
  unfold requested_name. rewrite Hname, (js_or_truthy _ _ Htr).
  unfold sent. simpl. by rewrite decide_True.
Qed.

(** C8, as the code has it. A CLIENT_CONNECT on an authenticated connection
    is answered with one frame whose [type] is CLIENT_CONNECT and which has
    no [success] property: its [data] holds [token: 'token'] when the
    requested [serverName] is registered and a message when it is not. The
    hub is left as it was and the connection is not closed. *)
Theorem CLIENT_CONNECT_reply w type data ctx h :
  contexts h !! w = Some ctx → authenticated ctx = true →
  MessageTypes_at type = Some (JStr "CLIENT_CONNECT") →
  let name := opt_prop data "serverName" in
  let '(h', out) := hub_step h (Message w (Frame type data)) in
  h' = h
  ∧ closes w out = false
  ∧ sent w out =
      (if bool_decide (name ∈ Map_keys (connectedServers h))
       then [JObject [ ("type", JAtom (JStr "CLIENT_CONNECT"));
                       ("data", JObject [ ("token", JAtom (JStr "token")) ]) ]]
       else [JObject [ ("type", JAtom (JStr "CLIENT_CONNECT"));
                       ("data", JObject
                          [ ("message",
                             JAtom (JStr ("Servidor " +:+ ToString name +:+ " no encontrado"))) ]) ]]).
Proof.
  intros Hw Hauth Hty name.
  rewrite (hub_step_Message w _ h ctx Hw). unfold run.
  rewrite (on_message_CLIENT_CONNECT w type data h Hty).
  rewrite (lookup_total_correct _ _ _ Hw), Hauth, handleClientConnect_run. simpl.
  fold name. unfold closes, sent.
  destruct (Map_get (connectedServers h) name) as [target|] eqn:E.
  - rewrite bool_decide_eq_true_2 by (apply elem_of_Map_keys; eauto).
    split_and!; [done | done | simpl; by rewrite decide_True].
  - rewrite bool_decide_eq_false_2
      by (rewrite elem_of_Map_keys, E; by intros [? ?]).
    split_and!; [done | done | simpl; by rewrite decide_True].
Qed.

(** * Further properties of the hub *)

(** ** Helpers *)

Lemma hub_eta h : Hub (connectedServers h) (contexts h) = h.
Proof. by destruct h. Qed.

Lemma Map_set_id m k v : Map_get m k = Some v → Map_set m k v = m.
Proof.
  induction m as [|[k' v'] m IH]; simpl; [done|].
  destruct (decide (k' = k)) as [->|Hne]; [by intros [= ->]|].
  intros H. by rewrite IH.
Qed.

Lemma sent_app w out1 out2 : sent w (out1 ++ out2) = sent w out1 ++ sent w out2.
Proof. apply omap_app. Qed.

Lemma closes_app w out1 out2 : closes w (out1 ++ out2) = closes w out1 || closes w out2.
Proof. apply existsb_app. Qed.

(** [isValidToken] has no effect but at most one call of the comparator. *)
Lemma isValidToken_calls token h :
  ∃ calls r, isValidToken token h = (h, calls, r)
             ∧ (calls = [] ∨ ∃ a b, calls = [TimingSafeEqual a b]).
Proof.
  destruct (truthy token) eqn:Ht; [|rewrite isValidToken_falsy; eauto 10].
  destruct GAME_SERVER_TOKEN as [s|] eqn:Hs;
    [|rewrite isValidToken_falsy; [eauto 10 | right; by left]].
  destruct (decide (s = "")) as [->|Hs0];
    [rewrite isValidToken_falsy; [eauto 10 | right; by right]|].
  destruct token as [| |b|n|t].
  1-4: erewrite isValidToken_not_string; eauto 10; done.
  erewrite isValidToken_string; eauto; [case_decide; eauto 10|].
  by apply truthy_JStr.
Qed.

(** A SERVER_CONNECT with the secret, whatever name it carries. *)
Lemma hub_step_SERVER_CONNECT_secret s w type data ctx h :
  GAME_SERVER_TOKEN = Some s → s ≠ "" →
  contexts h !! w = Some ctx →
  MessageTypes_at type = Some (JStr "SERVER_CONNECT") →
  opt_prop data "token" = JStr s →
  let name := js_or (opt_prop data "name") (serverName ctx) in
  hub_step h (Message w (Frame type data)) =
    (registered w name h,
     [TimingSafeEqual (String.list_byte_of_string s) (String.list_byte_of_string s);
      Send w (registered_reply name); Log info (LogServerConnected name);
      Log info (LogState (Map_keys (Map_set (connectedServers h) name w)))]).
Proof.
  intros Hs Hs0 Hw Hty Htok name.
  rewrite (hub_step_Message w _ h ctx Hw). unfold run.
  rewrite (on_message_SERVER_CONNECT w type data h _ _ Hty)
    by (rewrite Htok; by apply isValidToken_secret).
  unfold requested_name. by rewrite (lookup_total_correct _ _ _ Hw).
Qed.

(** What a message does, case by case. *)
Lemma hub_step_Message_cases w msg ctx h :
  contexts h !! w = Some ctx →
  ∃ calls, (calls = [] ∨ ∃ a b, calls = [TimingSafeEqual a b]) ∧
  let name := js_or (match msg with Frame _ data => opt_prop data "name" | _ => JUndefined end)
                    (serverName ctx) in
  let target := match msg with Frame _ data => opt_prop data "serverName" | _ => JUndefined end in
  (hub_step h (Message w msg) =
     (registered w name h,
      calls ++ [Send w (registered_reply name); Log info (LogServerConnected name);
                Log info (LogState (Map_keys (Map_set (connectedServers h) name w)))])
   ∨ hub_step h (Message w msg) =
       (h, calls ++ [Send w (auth_failed_reply name); Log warn (LogAuthFailed name); Close w])
   ∨ (∃ line, hub_step h (Message w msg) = (h, calls ++ [Log error line]))
   ∨ (∃ line, hub_step h (Message w msg) = (h, [Log warn line]))
   ∨ hub_step h (Message w msg) =
       (h, [Send w client_found_reply; Log info (LogClientConnected target)])
   ∨ hub_step h (Message w msg) =
       (h, [Send w (client_not_found_reply target); Log warn (LogClientFailed target)])).
Proof.
  intros Hw. rewrite (hub_step_Message w msg h ctx Hw). unfold run.
  destruct msg as [| |type data].
  1-2: exists []; split; [by left|]; rewrite on_message_unparsed by auto;
       right; right; left; by eexists.
  destruct (decide (MessageTypes_at type = Some (JStr "SERVER_CONNECT"))) as [H1|H1].
  - destruct (isValidToken_calls (opt_prop data "token") h) as (calls & v & Hv & Hcalls).
    exists calls. split; [done|].
    rewrite (on_message_SERVER_CONNECT w type data h calls v H1 Hv).
    unfold requested_name. rewrite (lookup_total_correct _ _ _ Hw).
    destruct v as [[]|e]; simpl; [by left | right; by left |].
    right; right; left. by eexists.
  - exists []. split; [by left|].
    destruct (decide (MessageTypes_at type = Some (JStr "CLIENT_CONNECT"))) as [H2|H2].
    + rewrite on_message_CLIENT_CONNECT by done.
      rewrite handleClientConnect_run, (lookup_total_correct _ _ _ Hw). simpl.
      destruct (authenticated ctx); [|do 3 right; left; by eexists].
      destruct (Map_get (connectedServers h) (opt_prop data "serverName"));
        [do 4 right; by left | do 5 right; done].
    + rewrite on_message_unhandled by done. do 3 right; left. by eexists.
Qed.

(** ** What every reachable hub satisfies *)

Lemma js_or_truthy_r a b : truthy b = true → truthy (js_or a b) = true.
Proof. unfold js_or. by destruct (truthy a) eqn:E. Qed.

Lemma hub_step_truthy_names h e : truthy_names_inv h → truthy_names_inv (hub_step h e).1.
Proof.
  intros Hinv. pose proof Hinv as [Hctx Hreg]. destruct e as [w|w msg|w|name msg].
  - split; [|done]. intros w' ctx. simpl. destruct (decide (w = w')) as [->|Hne].
    + rewrite lookup_insert_eq. by intros [= <-].
    + rewrite lookup_insert_ne by done. apply Hctx.
  - destruct (contexts h !! w) as [ctx|] eqn:Hw;
      [|unfold hub_step; rewrite decide_False; [done | rewrite Hw; by intros [? ?]]].
    destruct (hub_step_Message_cases w msg ctx h Hw) as (calls & _ & Hcases).
    destruct Hcases as [-> | [-> | [[? ->] | [[? ->] | [-> | ->]]]]]; try done.
    set (name := js_or _ (serverName ctx)).
    assert (truthy name = true) as Hname by (apply js_or_truthy_r; eauto).
    split; simpl.
    + intros w' ctx'. destruct (decide (w = w')) as [->|Hne].
      * rewrite lookup_insert_eq. by intros [= <-].
      * rewrite lookup_insert_ne by done. apply Hctx.
    + rewrite Map_keys_set. case_decide; [done|].
      apply Forall_app. split; [done|]. by constructor.
  - destruct (contexts h !! w) as [ctx|] eqn:Hw;
      [|unfold hub_step; rewrite decide_False; [done | rewrite Hw; by intros [? ?]]].
    rewrite (hub_step_Closed w h ctx Hw). split; simpl.
    + intros w' ctx'. destruct (decide (w = w')) as [->|Hne].
      * by rewrite lookup_delete_eq.
      * rewrite lookup_delete_ne by done. apply Hctx.
    + rewrite Forall_forall in Hreg. apply Forall_forall. intros k Hk.
      by apply Hreg, (Map_keys_delete _ (serverName ctx)).
  - unfold hub_step, run. rewrite sendMessageToServer_run.
    by destruct (Map_get (connectedServers h) name).
Qed.

Lemma reached_truthy_names es : truthy_names_inv (reached es).
Proof.
  unfold reached.
  cut (∀ h, truthy_names_inv h → truthy_names_inv (hub_run h es).1).
  { intros H. apply H. split; [|constructor]. intros w ctx. simpl. by rewrite lookup_empty. }
  induction es as [|e es IH]; intros h Hh; [done|].
  rewrite hub_run_cons. simpl. by apply IH, hub_step_truthy_names.
Qed.

(** X1. Whatever events the hub has handled since it started empty,
    [getConnectedServerNames] lists no name twice, and [servers()] gives one
    entry [{ id, name }] per listed name, no two of them alike. *)
Theorem listing_has_no_duplicates es :
  ∃ names,
    getConnectedServerNames (reached es) = (reached es, [], Ok names)
    ∧ servers (reached es) = (reached es, [], Ok (server_entry <$> names))
    ∧ NoDup names
    ∧ NoDup (server_entry <$> names).
Proof.
  exists (Map_keys (connectedServers (reached es))).
  pose proof (reached_NoDup es) as Hnd. split_and!; [done | done | done |].
  apply NoDup_fmap_2; [|done]. by intros n1 n2 [= ->].
Qed.

(** X2. Whatever events the hub has handled since it started empty, no
    registered name and no context name is [undefined], [null], [false], [0]
    or the empty string: a SERVER_CONNECT without a usable name falls back
    to the context name, which is never such a value. *)
Theorem names_are_never_empty es :
  (∀ w ctx, contexts (reached es) !! w = Some ctx → truthy (serverName ctx) = true)
  ∧ (∀ name, name ∈ Map_keys (connectedServers (reached es)) →
       truthy name = true ∧ name ≠ JUndefined ∧ name ≠ JStr "").
Proof.
  destruct (reached_truthy_names es) as [Hctx Hreg]. split; [done|].
  intros name Hname. rewrite Forall_forall in Hreg. specialize (Hreg name Hname).
  split_and!; [done | by intros -> | by intros ->].
Qed.

(** ** Registration *)

(** X3. A successful SERVER_CONNECT touches the entry of its own name and
    the context of its own connection, and nothing else: every other name
    keeps its connection, every other connection keeps its context, and the
    listing keeps its order, a name that was not listed going last. *)
Theorem registration_touches_one_entry s w type data name ctx h :
  GAME_SERVER_TOKEN = Some s → s ≠ "" →
  contexts h !! w = Some ctx →
  MessageTypes_at type = Some (JStr "SERVER_CONNECT") →
  opt_prop data "name" = name → truthy name = true →
  opt_prop data "token" = JStr s →
  let h' := (hub_step h (Message w (Frame type data))).1 in
  (∀ other, other ≠ name →
     Map_get (connectedServers h') other = Map_get (connectedServers h) other)
  ∧ (∀ w', w' ≠ w → contexts h' !! w' = contexts h !! w')
  ∧ Map_keys (connectedServers h') =
      (if decide (name ∈ Map_keys (connectedServers h))
       then Map_keys (connectedServers h)
       else Map_keys (connectedServers h) ++ [name]).
Proof.
  intros Hs Hs0 Hw Hty Hname Htr Htok h'. subst h'.
  rewrite (hub_step_SERVER_CONNECT_secret s w type data ctx h Hs Hs0 Hw Hty Htok).
  rewrite Hname, (js_or_truthy _ _ Htr). simpl. split_and!.
  - intros other Hne. by apply Map_get_set_ne.
  - intros w' Hne. by rewrite lookup_insert_ne.
  - apply Map_keys_set.
Qed.

(** X4. A connection that holds a name and sends SERVER_CONNECT again, with
    the secret and with the same name or with none, leaves the hub exactly
    as it was: one entry for the name, on the same connection, in the same
    place of the listing. It is answered as the first time. *)
Theorem reregistration_changes_nothing s w type data name h :
  GAME_SERVER_TOKEN = Some s → s ≠ "" →
  contexts h !! w = Some (Context name true) →
  Map_get (connectedServers h) name = Some w →
  MessageTypes_at type = Some (JStr "SERVER_CONNECT") →
  opt_prop data "name" = name ∨ truthy (opt_prop data "name") = false →
  opt_prop data "token" = JStr s →
  (hub_step h (Message w (Frame type data))).1 = h
  ∧ sent w (hub_step h (Message w (Frame type data))).2 = [registered_reply name].
Proof.
  intros Hs Hs0 Hw Hreg Hty Hname Htok.
  rewrite (hub_step_SERVER_CONNECT_secret s w type data _ h Hs Hs0 Hw Hty Htok).
  cbn [serverName].
  assert (js_or (opt_prop data "name") name = name) as ->.
  { destruct Hname as [-> | Hf]; [|by apply js_or_falsy].
    unfold js_or. by destruct (truthy name). }
  simpl. split.
  - unfold registered. rewrite (Map_set_id _ _ _ Hreg), (insert_id _ _ _ Hw).
    apply hub_eta.
  - unfold sent. simpl. by rewrite decide_True.
Qed.

(** X5. A connection that holds a name and registers again under another
    name then holds both entries: the old one is not removed. Its close
    deletes the entry of the new name only, so the old name stays listed
    and mapped to the connection that is gone. *)
Theorem renaming_leaves_a_stale_entry s w type data old new h :
  GAME_SERVER_TOKEN = Some s → s ≠ "" →
  contexts h !! w = Some (Context old true) →
  Map_get (connectedServers h) old = Some w →
  MessageTypes_at type = Some (JStr "SERVER_CONNECT") →
  opt_prop data "name" = new → truthy new = true → new ≠ old →
  opt_prop data "token" = JStr s →
  let h1 := (hub_step h (Message w (Frame type data))).1 in
  let h2 := (hub_step h1 (Closed w)).1 in
  (Map_get (connectedServers h1) old = Some w ∧ Map_get (connectedServers h1) new = Some w)
  ∧ contexts h2 !! w = None
  ∧ Map_get (connectedServers h2) new = None
  ∧ Map_get (connectedServers h2) old = Some w
  ∧ old ∈ Map_keys (connectedServers h2).
Proof.
  intros Hs Hs0 Hw Hreg Hty Hname Htr Hne Htok h1 h2. subst h1 h2.
  rewrite (hub_step_SERVER_CONNECT_secret s w type data _ h Hs Hs0 Hw Hty Htok).
  cbn [serverName]. rewrite Hname, (js_or_truthy _ _ Htr). cbn [fst].
  assert (contexts (registered w new h) !! w = Some (Context new true)) as Hw'
    by (simpl; by rewrite lookup_insert_eq).
  rewrite (hub_step_Closed w _ _ Hw'). simpl.
  assert (Map_get (Map_delete (Map_set (connectedServers h) new w) new) old = Some w) as Hold
    by (by rewrite Map_get_delete_ne, Map_get_set_ne).
  split_and!.
  - by rewrite Map_get_set_ne.
  - apply Map_get_set_eq.
  - by rewrite lookup_delete_eq.
  - apply Map_get_delete_eq.
  - done.
  - apply elem_of_Map_keys. by rewrite Hold.
Qed.

(** ** Close and relay *)

(** X6. The close of a connection removes its context and the registry
    entry of its context name, and only those: every other name keeps its
    connection and every other connection its context. A relay to the
    deleted name then finds nobody and sends nothing. *)
Theorem close_removes_own_name_only w ctx msg h :
  contexts h !! w = Some ctx →
  let h' := (hub_step h (Closed w)).1 in
  contexts h' !! w = None
  ∧ Map_get (connectedServers h') (serverName ctx) = None
  ∧ (∀ other, other ≠ serverName ctx →
       Map_get (connectedServers h') other = Map_get (connectedServers h) other)
  ∧ (∀ w', w' ≠ w → contexts h' !! w' = contexts h !! w')
  ∧ hub_step h' (Relay (serverName ctx) msg) = (h', [Log warn (LogNotFound (serverName ctx))]).
Proof.
  intros Hw h'. subst h'. rewrite (hub_step_Closed w h ctx Hw). simpl. split_and!.
  - by rewrite lookup_delete_eq.
  - apply Map_get_delete_eq.
  - intros other Hne. by apply Map_get_delete_ne.
  - intros w' Hne. by rewrite lookup_delete_ne.
  - unfold hub_step, run. rewrite sendMessageToServer_run. simpl.
    by rewrite Map_get_delete_eq.
Qed.

(** X7. After a successful SERVER_CONNECT, a relay to the name sends the
    message on the connection that registered last, whichever connection
    held the name before, and on no other. *)
Theorem relay_reaches_latest_registrant s w type data name ctx msg h :
  GAME_SERVER_TOKEN = Some s → s ≠ "" →
  contexts h !! w = Some ctx →
  MessageTypes_at type = Some (JStr "SERVER_CONNECT") →
  opt_prop data "name" = name → truthy name = true →
  opt_prop data "token" = JStr s →
  let h' := (hub_step h (Message w (Frame type data))).1 in
  hub_step h' (Relay name msg) = (h', [Send w msg; Log info (LogSent name msg)]).
Proof.
  intros Hs Hs0 Hw Hty Hname Htr Htok h'. subst h'.
  rewrite (hub_step_SERVER_CONNECT_secret s w type data ctx h Hs Hs0 Hw Hty Htok).
  rewrite Hname, (js_or_truthy _ _ Htr). simpl.
  unfold hub_step, run. rewrite sendMessageToServer_run. simpl.
  by rewrite Map_get_set_eq.
Qed.

(** X8. The listing and the relay agree: [sendMessageToServer] sends the
    message, on one connection, exactly when [getConnectedServerNames] lists
    the name; for a name that is not listed nothing is sent. *)
Theorem relay_sends_iff_listed name msg h :
  (name ∈ Map_keys (connectedServers h) ↔
     ∃ w, (hub_step h (Relay name msg)).2 = [Send w msg; Log info (LogSent name msg)])
  ∧ (name ∉ Map_keys (connectedServers h) ↔
     (hub_step h (Relay name msg)).2 = [Log warn (LogNotFound name)]).
Proof.
  unfold hub_step, run. rewrite sendMessageToServer_run, elem_of_Map_keys.
  destruct (Map_get (connectedServers h) name) as [w|]; simpl.
  - split; split; [eauto | eauto | by intros [] | done].
  - split; split; [by intros [? ?] | by intros [? ?] | done | by intros _ [? ?]].
Qed.

(** ** What a message cannot do *)

(** X9. No exception leaves the message handler, whatever the message. What
    it sends, it sends on the connection the message came in on, and it
    closes no other connection; the contexts of the other connections stay
    as they were. *)
Theorem message_is_contained w msg h :
  ∃ h' out,
    on_message w msg h = (h', out, Ok tt)
    ∧ (∀ w' frame, Send w' frame ∈ out → w' = w)
    ∧ (∀ w', Close w' ∈ out → w' = w)
    ∧ (∀ w', w' ≠ w → contexts h' !! w' = contexts h !! w').
Proof.
  destruct msg as [| |type data].
  1-2: rewrite on_message_unparsed by auto; eexists _, _; split_and!; [done | | | done];
       intros *; rewrite !elem_of_cons, elem_of_nil; naive_solver.
  destruct (decide (MessageTypes_at type = Some (JStr "SERVER_CONNECT"))) as [H1|H1].
  - destruct (isValidToken_calls (opt_prop data "token") h) as (calls & v & Hv & Hcalls).
    rewrite (on_message_SERVER_CONNECT w type data h calls v H1 Hv).
    destruct v as [[]|e]; simpl; eexists _, _; (split; [done|]);
      (split_and!; [| | try done]);
      try (intros *; rewrite elem_of_app, !elem_of_cons, elem_of_nil;
           destruct Hcalls as [-> | (a & b & ->)];
           rewrite ?elem_of_cons, ?elem_of_nil; naive_solver).
    intros w' Hne. simpl. by rewrite lookup_insert_ne.
  - destruct (decide (MessageTypes_at type = Some (JStr "CLIENT_CONNECT"))) as [H2|H2].
    + rewrite on_message_CLIENT_CONNECT by done.
      rewrite handleClientConnect_run. simpl.
      destruct (authenticated (contexts h !!! w)),
        (Map_get (connectedServers h) (opt_prop data "serverName"));
        eexists _, _; (split_and!; [done | | | done]);
        intros *; rewrite !elem_of_cons, elem_of_nil; naive_solver.
    + rewrite on_message_unhandled by done.
      eexists _, _; split_and!; [done | | | done];
        intros *; rewrite !elem_of_cons, elem_of_nil; naive_solver.
Qed.

(** X10. A connection that has not authenticated gets no answer to a
    CLIENT_CONNECT: the hub logs a warning, sends nothing, closes nothing
    and stays as it was, whether or not the requested server is
    registered. *)
Theorem unauthenticated_CLIENT_CONNECT_is_ignored w type data ctx h :
  contexts h !! w = Some ctx → authenticated ctx = false →
  MessageTypes_at type = Some (JStr "CLIENT_CONNECT") →
  hub_step h (Message w (Frame type data)) = (h, [Log warn LogClientUnauthenticated]).
Proof.
  intros Hw Hauth Hty. rewrite (hub_step_Message w _ h ctx Hw). unfold run.
  rewrite (on_message_CLIENT_CONNECT w type data h Hty).
  by rewrite (lookup_total_correct _ _ _ Hw), Hauth.
Qed.

(** X11. With a secret configured, a SERVER_CONNECT whose token is a number
    other than 0 or is [true] is neither accepted nor rejected:
    [Buffer.from] throws, the handler logs the error, no
    SERVER_CONNECT_RESULT is sent, the connection is not closed and the hub
    stays as it was. *)
Theorem non_string_token_gets_no_reply s w type data ctx h :
  GAME_SERVER_TOKEN = Some s → s ≠ "" →
  contexts h !! w = Some ctx →
  MessageTypes_at type = Some (JStr "SERVER_CONNECT") →
  (∃ n, n ≠ 0 ∧ opt_prop data "token" = JNum n) ∨ opt_prop data "token" = JBool true →
  let '(h', out) := hub_step h (Message w (Frame type data)) in
  h' = h
  ∧ out = [Log error LogProcessingError]
  ∧ sent w out = []
  ∧ closes w out = false.
Proof.
  intros Hs Hs0 Hw Hty Htok.
  rewrite (hub_step_Message w _ h ctx Hw). unfold run.
  rewrite (on_message_SERVER_CONNECT w type data h [] (Throw TypeError) Hty); [done|].
  apply (isValidToken_not_string s); [done | done | |].
  - destruct Htok as [(n & Hn & ->) | ->]; simpl; [|done].
    by destruct (Z.eqb_spec n 0).
  - intros t. destruct Htok as [(n & Hn & ->) | ->]; done.
Qed.

(** ** The HTTP check of the same secret *)

Lemma isValidToken_true_iff t h :
  (∃ calls, isValidToken (JStr t) h = (h, calls, Ok true)) ↔ t ≠ "" ∧ GAME_SERVER_TOKEN = Some t.
Proof.
  split.
  - intros [calls Hv].
    destruct (decide (t = "")) as [->|Ht0];
      [rewrite isValidToken_falsy in Hv by (by left); congruence|].
    destruct GAME_SERVER_TOKEN as [s|] eqn:Hs;
      [|rewrite isValidToken_falsy in Hv by (right; by left); congruence].
    destruct (decide (s = "")) as [->|Hs0];
      [rewrite isValidToken_falsy in Hv by (right; by right); congruence|].
    rewrite (isValidToken_string s t h Hs Hs0 Ht0) in Hv.
    case_decide; [|congruence]. injection Hv as _ Hb.
    apply bool_decide_eq_true_1 in Hb. by subst.
  - intros [Ht0 Hs]. eexists. by apply isValidToken_secret.
Qed.

(** X12. [requireGameServer] lets a request through exactly when its
    [x-gs-token] header is a non-empty string equal to the configured
    secret, which is exactly when [isValidToken] accepts the same string on
    the WebSocket side. A missing or empty header is answered 401, any other
    token 403; with the secret unset or empty no request gets through. *)
Theorem requireGameServer_agrees_with_isValidToken x_gs_token h :
  (requireGameServer x_gs_token = Next ↔
     ∃ t, x_gs_token = Some t ∧ t ≠ "" ∧ GAME_SERVER_TOKEN = Some t)
  ∧ (requireGameServer x_gs_token = Next ↔
     ∃ t calls, x_gs_token = Some t ∧ isValidToken (JStr t) h = (h, calls, Ok true))
  ∧ ((∃ body, requireGameServer x_gs_token = Respond 401 body) ↔
     x_gs_token = None ∨ x_gs_token = Some "")
  ∧ ((∃ body, requireGameServer x_gs_token = Respond 403 body) ↔
     ∃ t, x_gs_token = Some t ∧ t ≠ "" ∧ GAME_SERVER_TOKEN ≠ Some t)
  ∧ (unconfigured → requireGameServer x_gs_token ≠ Next).
Proof.
  assert (requireGameServer x_gs_token = Next ↔
     ∃ t, x_gs_token = Some t ∧ t ≠ "" ∧ GAME_SERVER_TOKEN = Some t) as Hnext.
  { unfold requireGameServer, process_env_GAME_SERVER_TOKEN.
    destruct x_gs_token as [t|]; simpl; [|split; [done | by intros (? & ? & _)]].
    destruct (String.eqb_spec t "") as [->|Ht0]; simpl;
      [split; [done | by intros (? & [= <-] & ? & _)]|].
    case_bool_decide as E; simpl.
    - split; [intros _|done]. exists t. split_and!; [done..|].
      destruct GAME_SERVER_TOKEN; simpl in E; congruence.
    - split; [done|]. intros (t' & [= <-] & _ & Hs). rewrite Hs in E. by destruct E. }
  split_and!; [done | | | |].
  - rewrite Hnext. split.
    + intros (t & -> & Ht0 & Hs). destruct (proj2 (isValidToken_true_iff t h)) as [calls Hv]; eauto.
    + intros (t & calls & -> & Hv). exists t.
      destruct (proj1 (isValidToken_true_iff t h)); eauto.
  - unfold requireGameServer. destruct x_gs_token as [t|]; simpl; [|split; eauto].
    destruct (String.eqb_spec t "") as [->|Ht0]; simpl; [split; eauto|].
    split; [|intros [?|[= ?]]; congruence]. intros [body Hb]. by case_bool_decide.
  - unfold requireGameServer, process_env_GAME_SERVER_TOKEN.
    destruct x_gs_token as [t|]; simpl; [|split; [by intros [? ?] | by intros (? & ? & _)]].
    destruct (String.eqb_spec t "") as [->|Ht0]; simpl;
      [split; [by intros [? ?] | by intros (? & [= <-] & ? & _)]|].
    case_bool_decide as E; simpl.
    + split; [by intros [? ?]|]. intros (t' & [= <-] & _ & Hs).
      destruct GAME_SERVER_TOKEN; simpl in E; congruence.
    + split; [intros _|eauto]. exists t. split_and!; [done..|].
      intros Hs. rewrite Hs in E. by destruct E.
  - intros Hu. rewrite Hnext. intros (t & _ & Ht0 & Hs).
    destruct Hu as [Hu|Hu]; rewrite Hu in Hs; congruence.
Qed.

(** ** The callers in authService.js *)

Lemma login_sent_OfHub w out line :
  login_sent w ((OfHub <$> out) ++ line) =
    sent w out ++ login_sent w line.
Proof.
  unfold login_sent. rewrite omap_app, sent_app. f_equal. f_equal.
  induction out as [|e out IH]; csimpl; [done|]. by rewrite IH.
Qed.

(** X13. [login] never changes the hub and sends at most one frame. With an
    unknown user or a wrong password the promise is rejected with the same
    message in both cases and nothing is sent. With the right password it
    resolves with the signed token whether or not the requested server is
    registered; the USER_CONNECTED frame, carrying the user name and that
    same token, goes to the connection registered under the server name, if
    there is one, and to no other. *)
Theorem login_outcome username pass serverName h :
  ∃ out r,
    login username pass serverName h = (h, out, r)
    ∧ match User_findOne username with
      | Some user =>
          if bcrypt_compare pass (password user) then
            let token := jwt_sign (_id user) username in
            r = Resolved (_id user) username token
            ∧ ∀ w, login_sent w out =
                     (if decide (Map_get (connectedServers h) (JStr serverName) = Some w)
                      then [USER_CONNECTED_frame username token] else [])
          else r = Rejected "Credenciales inválidas" ∧ out = []
      | None => r = Rejected "Credenciales inválidas" ∧ out = []
      end.
Proof.
  unfold login. destruct (User_findOne username) as [user|]; [|by eexists _, _].
  destruct (bcrypt_compare pass (password user)); simpl; [|by eexists _, _].
  rewrite sendMessageToServer_run.
  destruct (Map_get (connectedServers h) (JStr serverName)) as [w0|] eqn:E;
    eexists _, _; (split; [done|]); (split; [done|]); intros w;
    rewrite login_sent_OfHub; unfold sent, login_sent; simpl.
  - unfold USER_CONNECTED_frame. repeat case_decide; simplify_eq; done.
  - done.
Qed.

(** X14. Once a world server has registered under a name, a [login] with
    the right password and that server name delivers the USER_CONNECTED
    frame, with the token the client gets, on the server's connection. After
    the close of that connection the same [login] still resolves with a
    token, which nobody receives. *)
Theorem login_reaches_registered_server s w type data server ctx user username pass h :
  GAME_SERVER_TOKEN = Some s → s ≠ "" →
  contexts h !! w = Some ctx →
  MessageTypes_at type = Some (JStr "SERVER_CONNECT") →
  opt_prop data "name" = JStr server → server ≠ "" →
  opt_prop data "token" = JStr s →
  User_findOne username = Some user → bcrypt_compare pass (password user) = true →
  let token := jwt_sign (_id user) username in
  let h1 := (hub_step h (Message w (Frame type data))).1 in
  let h2 := (hub_step h1 (Closed w)).1 in
  (∃ out, login username pass server h1 = (h1, out, Resolved (_id user) username token)
          ∧ login_sent w out = [USER_CONNECTED_frame username token])
  ∧ (∃ out, login username pass server h2 = (h2, out, Resolved (_id user) username token)
            ∧ ∀ w', login_sent w' out = []).
Proof.
  intros Hs Hs0 Hw Hty Hname Hn0 Htok Huser Hpass token h1 h2.
  assert (truthy (JStr server) = true) as Htr by (by apply truthy_JStr).
  assert (h1 = registered w (JStr server) h) as Hh1.
  { subst h1. rewrite (hub_step_SERVER_CONNECT_secret s w type data ctx h Hs Hs0 Hw Hty Htok).
    by rewrite Hname, (js_or_truthy _ _ Htr). }
  assert (Map_get (connectedServers h1) (JStr server) = Some w) as Hreg
    by (rewrite Hh1; apply Map_get_set_eq).
  assert (Map_get (connectedServers h2) (JStr server) = None) as Hgone.
  { subst h2. rewrite (hub_step_Closed w h1 (Context (JStr server) true))
      by (rewrite Hh1; simpl; by rewrite lookup_insert_eq).
    apply Map_get_delete_eq. }
  split.
  - unfold login. rewrite Huser, Hpass. simpl. rewrite sendMessageToServer_run, Hreg.
    eexists. split; [done|]. rewrite login_sent_OfHub. unfold sent, login_sent. simpl.
    by rewrite decide_True.
  - unfold login. rewrite Huser, Hpass. simpl. rewrite sendMessageToServer_run, Hgone.
    eexists. split; [done|]. intros w'. by rewrite login_sent_OfHub.
Qed.

End hub_js.

(** * The scenarios, with the secret ["s3cret"] *)

Local Abbreviation hub1 := (reached s3cret one_open).
Local Abbreviation hub2 := (reached s3cret two_open).
Local Abbreviation hub_Zone1_twice := (reached s3cret Zone1_twice).

(** C1 fails on the code: connection 2 holds Zone1 when connection 1
    closes, and the close empties the registry. *)
Lemma stale_close_evicts_Zone1 :
  Map_get (connectedServers hub_Zone1_twice) (JStr "Zone1") = Some 2%nat
  ∧ (getConnectedServerNames (hub_step s3cret hub_Zone1_twice (Closed 1%nat)).1).2 = Ok [].
Proof. split; reflexivity. Qed.

(** C2 fails on the code: the frame with [type: 1] registers Zone1, the same
    frame with [type: "SERVER_CONNECT"] is logged as unhandled and registers
    nothing. *)
Lemma name_alias_is_unhandled :
  connectedServers (hub_step s3cret hub1 (Message 1%nat (SERVER_CONNECT "Zone1" "s3cret"))).1
    = [(JStr "Zone1", 1%nat)]
  ∧ hub_step s3cret hub1
      (Message 1%nat (Frame (JStr "SERVER_CONNECT")
                        (Some [("name", JStr "Zone1"); ("token", JStr "s3cret")])))
    = (hub1, [Log warn (LogUnhandledType (JStr "SERVER_CONNECT"))]).
Proof. split; reflexivity. Qed.

(** C3 fails on the code: the call returns [undefined] for a registered name
    as for an unregistered one, so no two distinct results tell the cases
    apart. *)
Lemma relay_returns_undefined :
  ((sendMessageToServer (JStr "Zone1") USER_CONNECTED hub_Zone1_twice).2 = Ok JUndefined
   ∧ (sendMessageToServer (JStr "Zone1") USER_CONNECTED hub_init).2 = Ok JUndefined)
  ∧ ¬ ∃ Delivered NotFound : jsval,
        Delivered ≠ NotFound
        ∧ (sendMessageToServer (JStr "Zone1") USER_CONNECTED hub_Zone1_twice).2 = Ok Delivered
        ∧ (sendMessageToServer (JStr "Zone1") USER_CONNECTED hub_init).2 = Ok NotFound.
Proof.
  split; [split; reflexivity|].
  intros (d & n & Hne & Hd & Hn). vm_compute in Hd, Hn. congruence.
Qed.

(** C7 fails on the code: in the reply to a successful SERVER_CONNECT the
    [data] object has no [success] property; [success] sits on the
    envelope. *)
Lemma success_is_not_in_data :
  sent 1%nat (hub_step s3cret hub1 (Message 1%nat (SERVER_CONNECT "Zone1" "s3cret"))).2
    = [registered_reply (JStr "Zone1")]
  ∧ (json_get (registered_reply (JStr "Zone1")) "data" ≫= λ d, json_get d "success") = None
  ∧ (json_get (registered_reply (JStr "Zone1")) "data" ≫= λ d, json_get d "server_id")
      = Some (JAtom (JStr "Zone1"))
  ∧ json_get (registered_reply (JStr "Zone1")) "success" = Some (JAtom (JBool true)).
Proof. split_and!; reflexivity. Qed.

(** C8 fails on the code: the reply to a CLIENT_CONNECT for a registered
    server has the type CLIENT_CONNECT and no [success] property, on the
    envelope or in [data]. *)
Lemma CLIENT_CONNECT_reply_has_no_success :
  sent 1%nat (hub_step s3cret hub_Zone1_twice (Message 1%nat (CLIENT_CONNECT "Zone1"))).2
    = [client_found_reply]
  ∧ json_get client_found_reply "type" = Some (JAtom (JStr "CLIENT_CONNECT"))
  ∧ json_get client_found_reply "success" = None
  ∧ (json_get client_found_reply "data" ≫= λ d, json_get d "success") = None
  ∧ sent 1%nat (hub_step s3cret hub_Zone1_twice (Message 1%nat (CLIENT_CONNECT "Zone9"))).2
      = [client_not_found_reply (JStr "Zone9")]
  ∧ json_get (client_not_found_reply (JStr "Zone9")) "success" = None
  ∧ (json_get (client_not_found_reply (JStr "Zone9")) "data" ≫= λ d, json_get d "success") = None.
Proof. split_and!; reflexivity. Qed.

(** C5. The rejection of a SERVER_CONNECT misses the wrong tokens that are
    not strings. With the secret ["s3cret"] configured, a SERVER_CONNECT for
    ["Zone1"] whose token is the number [12345] passes the guard [!token],
    [Buffer.from] throws in [isValidToken], and the [catch] of the message
    handler logs the error: no SERVER_CONNECT_RESULT is sent and the
    connection is not closed. The same frame with the string ["12345"], a
    wrong token as well, is answered with [success: false] and closed. The
    registry is left as it was by both. *)
Theorem numeric_token_is_not_rejected :
  let number := Message 1%nat (Frame (JNum 1) (Some [("name", JStr "Zone1"); ("token", JNum 12345)])) in
  let text := Message 1%nat (Frame (JNum 1) (Some [("name", JStr "Zone1"); ("token", JStr "12345")])) in
  isValidToken s3cret (JNum 12345) hub1 = (hub1, [], Throw TypeError)
  ∧ hub_step s3cret hub1 number = (hub1, [Log error LogProcessingError])
  ∧ sent 1%nat (hub_step s3cret hub1 number).2 = []
  ∧ closes 1%nat (hub_step s3cret hub1 number).2 = false
  ∧ sent 1%nat (hub_step s3cret hub1 text).2 = [auth_failed_reply (JStr "Zone1")]
  ∧ closes 1%nat (hub_step s3cret hub1 text).2 = true
  ∧ (hub_step s3cret hub1 text).1 = hub1
  ∧ Map_keys (connectedServers (hub_step s3cret hub1 number).1) = [].
Proof. split_and!; reflexivity. Qed.

(** ** The theorems at these scenarios *)

Lemma stale_close_deletes_entry_witness :
  let hA := (hub_step s3cret hub2 (Message 1%nat (SERVER_CONNECT "Zone1" "s3cret"))).1 in
  let hB := (hub_step s3cret hA (Message 2%nat (SERVER_CONNECT "Zone1" "s3cret"))).1 in
  let hC := (hub_step s3cret hB (Closed 1%nat)).1 in
  Map_get (connectedServers hB) (JStr "Zone1") = Some 2%nat
  ∧ Map_get (connectedServers hC) (JStr "Zone1") = None
  ∧ (JStr "Zone1" ∉ Map_keys (connectedServers hC))
  ∧ contexts hC !! 2%nat = Some (Context (JStr "Zone1") true).
Proof.
  apply (stale_close_deletes_entry s3cret "s3cret" 1%nat 2%nat (JNum 1) _ (JStr "Zone1")
           (Context (JStr "UnknownServer") false) (Context (JStr "UnknownServer") false));
    [reflexivity | discriminate | lia | reflexivity..].
Defined.

Lemma SERVER_CONNECT_registers_witness :
  let h' := (hub_step s3cret hub1 (Message 1%nat (SERVER_CONNECT "Zone1" "s3cret"))).1 in
  contexts h' !! 1%nat = Some (Context (JStr "Zone1") true)
  ∧ Map_get (connectedServers h') (JStr "Zone1") = Some 1%nat
  ∧ ∃ names, getConnectedServerNames h' = (h', [], Ok names) ∧ JStr "Zone1" ∈ names.
Proof.
  apply (SERVER_CONNECT_registers s3cret "s3cret" 1%nat (JNum 1) _ (JStr "Zone1")
           (Context (JStr "UnknownServer") false));
    [reflexivity | discriminate | reflexivity..].
Defined.

Lemma SERVER_CONNECT_rejected_witness :
  let name := JStr "Zone1" in
  (∃ calls,
     hub_step s3cret hub1 (Message 1%nat (SERVER_CONNECT "Zone1" "s3cre7")) =
       (hub1, calls ++ [Send 1%nat (auth_failed_reply name); Log warn (LogAuthFailed name);
                        Close 1%nat])
     ∧ ∀ e, e ∈ calls → ∃ a b, e = TimingSafeEqual a b)
  ∧ json_get (auth_failed_reply name) "type" = Some (JAtom (JStr "SERVER_CONNECT_RESULT"))
  ∧ json_get (auth_failed_reply name) "success" = Some (JAtom (JBool false))
  ∧ (∀ k, k ∉ Map_keys (connectedServers hub1) →
          k ∉ Map_keys (connectedServers (hub_step s3cret hub1 (Closed 1%nat)).1)).
Proof.
  apply (SERVER_CONNECT_rejected s3cret 1%nat (JNum 1)
           (Some [("name", JStr "Zone1"); ("token", JStr "s3cre7")])
           (Context (JStr "UnknownServer") false) hub1);
    [reflexivity | reflexivity |].
  right; right. exists "s3cre7". split; [reflexivity | discriminate].
Defined.

Lemma isValidToken_comparator_witness :
  ∃ calls r,
    isValidToken s3cret (JStr "s3cre7") hub_init = (hub_init, calls, r)
    ∧ calls = [TimingSafeEqual (String.list_byte_of_string "s3cre7")
                               (String.list_byte_of_string "s3cret")]
    ∧ r = Ok false.
Proof.
  destruct (isValidToken_comparator s3cret (JStr "s3cre7") hub_init)
    as (calls & r & Hrun & _ & _ & Heq).
  exists calls, r. split; [exact Hrun|].
  apply (Heq "s3cret" "s3cre7"); [reflexivity | reflexivity | discriminate | reflexivity].
Defined.

Lemma unconfigured_secret_registers_nothing_witness :
  isValidToken None (JStr "s3cret") hub_init = (hub_init, [], Ok false)
  ∧ isValidToken (Some "") (JStr "") hub_init = (hub_init, [], Ok false)
  ∧ connectedServers
      (hub_run (Some "") hub_init [Connection 1%nat; Message 1%nat (SERVER_CONNECT "Zone1" "")]).1
    = [].
Proof.
  split_and!.
  - apply (proj1 (unconfigured_secret_registers_nothing None)). left. by left.
  - apply (proj1 (unconfigured_secret_registers_nothing (Some ""))). left. by right.
  - apply (proj2 (proj2 (unconfigured_secret_registers_nothing (Some "")))). by right.
Defined.

Lemma unauthenticated_close_deletes_UnknownServer_witness :
  let h := reached s3cret UnknownServer_taken in
  let servers' := connectedServers (hub_step s3cret h (Closed 2%nat)).1 in
  servers' = Map_delete (connectedServers h) (JStr "UnknownServer")
  ∧ Map_get servers' (JStr "UnknownServer") = None
  ∧ (servers' = connectedServers h ↔ Map_get (connectedServers h) (JStr "UnknownServer") = None).
Proof.
  apply (unauthenticated_close_deletes_UnknownServer s3cret UnknownServer_taken _ 2%nat
           (Context (JStr "UnknownServer") false)); reflexivity.
Defined.

Lemma SERVER_CONNECT_reply_witness :
  sent 1%nat (hub_step s3cret hub1 (Message 1%nat (SERVER_CONNECT "Zone1" "s3cret"))).2
    = [registered_reply (JStr "Zone1")]
  ∧ json_get (registered_reply (JStr "Zone1")) "type" = Some (JAtom (JStr "SERVER_CONNECT_RESULT"))
  ∧ json_get (registered_reply (JStr "Zone1")) "success" = Some (JAtom (JBool true))
  ∧ json_get (registered_reply (JStr "Zone1")) "data" =
      Some (JObject
        [ ("message", JAtom (JStr ("Servidor " +:+ ToString (JStr "Zone1") +:+ " registrado correctamente")));
          ("server_id", JAtom (JStr "Zone1")) ]).
Proof.
  apply (SERVER_CONNECT_reply s3cret "s3cret" 1%nat (JNum 1) _ (JStr "Zone1")
           (Context (JStr "UnknownServer") false));
    [reflexivity | discriminate | reflexivity..].
Defined.

Lemma CLIENT_CONNECT_reply_witness :
  let '(h', out) := hub_step s3cret hub_Zone1_twice (Message 1%nat (CLIENT_CONNECT "Zone1")) in
  h' = hub_Zone1_twice
  ∧ closes 1%nat out = false
  ∧ sent 1%nat out =
      (if bool_decide (JStr "Zone1" ∈ Map_keys (connectedServers hub_Zone1_twice))
       then [JObject [ ("type", JAtom (JStr "CLIENT_CONNECT"));
                       ("data", JObject [ ("token", JAtom (JStr "token")) ]) ]]
       else [JObject [ ("type", JAtom (JStr "CLIENT_CONNECT"));
                       ("data", JObject
                          [ ("message",
                             JAtom (JStr ("Servidor " +:+ ToString (JStr "Zone1") +:+ " no encontrado"))) ]) ]]).
Proof.
  apply (CLIENT_CONNECT_reply s3cret 1%nat (JNum 2) (Some [("serverName", JStr "Zone1")])
           (Context (JStr "Zone1") true) hub_Zone1_twice); reflexivity.
Defined.

(** * utils/ipBlocker.js *)

Lemma invalid_requests_app cfg nows1 nows2 ip b :
  invalid_requests cfg (nows1 ++ nows2) ip b =
    let '(b1, rs1) := invalid_requests cfg nows1 ip b in
    let '(b2, rs2) := invalid_requests cfg nows2 ip b1 in
    (b2, rs1 ++ rs2).
Proof.
  revert b. induction nows1 as [|now nows1 IH]; intros b; simpl.
  - by destruct (invalid_requests cfg nows2 ip b).
  - destruct (registerInvalidRequest cfg now ip b) as [b1 r]. rewrite IH.
    destruct (invalid_requests cfg nows1 ip b1) as [b2 rs1].
    by destruct (invalid_requests cfg nows2 ip b2).
Qed.

(** Below the threshold every call answers [false] and only counts. *)
Lemma invalid_requests_below cfg nows ip b :
  default 0 (attempts b !! normalizeIp ip) + Z.of_nat (length nows) < MAX_INVALID_ATTEMPTS cfg →
  ∃ b', invalid_requests cfg nows ip b = (b', replicate (length nows) false)
        ∧ blacklist b' = blacklist b
        ∧ default 0 (attempts b' !! normalizeIp ip) =
            default 0 (attempts b !! normalizeIp ip) + Z.of_nat (length nows)
        ∧ ∀ other, other ≠ normalizeIp ip → attempts b' !! other = attempts b !! other.
Proof.
  revert b. induction nows as [|now nows IH]; intros b Hlt.
  - exists b. simpl. split_and!; [done | done | lia | done].
  - simpl in Hlt. simpl. unfold registerInvalidRequest at 1.
    destruct (Z.leb_spec (MAX_INVALID_ATTEMPTS cfg)
                (default 0 (attempts b !! normalizeIp ip) + 1)) as [Hge|Hlt1]; [lia|].
    set (b1 := IpBlocker _ _).
    assert (default 0 (attempts b1 !! normalizeIp ip) =
            default 0 (attempts b !! normalizeIp ip) + 1) as Hc
      by (subst b1; simpl; by rewrite lookup_insert_eq).
    destruct (IH b1) as (b' & -> & Hbl & Hcount & Hother); [lia|].
    exists b'. split_and!; [done | done | lia |].
    intros other Hne. rewrite (Hother other Hne). subst b1. simpl.
    by rewrite lookup_insert_ne.
Qed.

Lemma invalid_requests_lockout cfg nows t ip b :
  default 0 (attempts b !! normalizeIp ip) + Z.of_nat (length nows) + 1
    = MAX_INVALID_ATTEMPTS cfg →
  ∃ b', invalid_requests cfg (nows ++ [t]) ip b = (b', replicate (length nows) false ++ [true])
        ∧ blacklist b' = <[normalizeIp ip := t + BLOCK_DURATION_MINUTES cfg * 60 * 1000]> (blacklist b)
        ∧ attempts b' !! normalizeIp ip = None
        ∧ ∀ other, other ≠ normalizeIp ip → attempts b' !! other = attempts b !! other.
Proof.
  intros Hmax. rewrite invalid_requests_app.
  destruct (invalid_requests_below cfg nows ip b) as (b1 & -> & Hbl & Hcount & Hother); [lia|].
  simpl. unfold registerInvalidRequest.
  destruct (Z.leb_spec (MAX_INVALID_ATTEMPTS cfg)
              (default 0 (attempts b1 !! normalizeIp ip) + 1)) as [Hge|Hlt]; [|lia].
  eexists. split_and!; [done | | |]; simpl.
  - by rewrite Hbl.
  - by rewrite lookup_delete_eq.
  - intros other Hne. by rewrite lookup_delete_ne, lookup_insert_ne, Hother.
Qed.

Lemma isBlocked_until t' ip expires b :
  blacklist b !! normalizeIp ip = Some expires → expires ≠ 0 →
  truthy (isBlocked t' ip b) = true ↔ t' < expires.
Proof.
  intros Hb Hne. unfold isBlocked, js_and. rewrite Hb. simpl.
  destruct (Z.eqb_spec expires 0) as [?|_]; [done|]. simpl.
  destruct (Z.ltb_spec t' expires); split; (done || lia).
Qed.

(** X15. An address is blocked by the request that brings its count of
    invalid requests to [MAX_INVALID_ATTEMPTS], and by none before: the
    earlier calls answer [false] and leave the blacklist alone, that call
    answers [true], forgets the count and blacklists the address until
    [BLOCK_DURATION_MINUTES] after its own time. From then on [isBlocked]
    holds exactly before that expiry. *)
Theorem lockout_at_the_threshold cfg nows t ip b :
  default 0 (attempts b !! normalizeIp ip) + Z.of_nat (length nows) + 1
    = MAX_INVALID_ATTEMPTS cfg →
  let expires := t + BLOCK_DURATION_MINUTES cfg * 60 * 1000 in
  let '(b', answers) := invalid_requests cfg (nows ++ [t]) ip b in
  answers = replicate (length nows) false ++ [true]
  ∧ (invalid_requests cfg nows ip b).2 = replicate (length nows) false
  ∧ blacklist (invalid_requests cfg nows ip b).1 = blacklist b
  ∧ blacklist b' !! normalizeIp ip = Some expires
  ∧ attempts b' !! normalizeIp ip = None
  ∧ (expires ≠ 0 → ∀ t', truthy (isBlocked t' ip b') = true ↔ t' < expires).
Proof.
  intros Hmax expires.
  destruct (invalid_requests_lockout cfg nows t ip b Hmax) as (b' & -> & Hbl & Hatt & _).
  destruct (invalid_requests_below cfg nows ip b) as (b1 & -> & Hbl1 & _); [lia|].
  assert (blacklist b' !! normalizeIp ip = Some expires) as Hexp
    by (by rewrite Hbl, lookup_insert_eq).
  split_and!; [done.. |]. intros Hne t'. by apply isBlocked_until.
Qed.

(** X16. [reset] clears an address: it is no longer blocked at any time,
    and its count starts again, so that it takes [MAX_INVALID_ATTEMPTS] new
    invalid requests to block it. *)
Theorem reset_starts_over cfg nows t ip b :
  Z.of_nat (length nows) + 1 = MAX_INVALID_ATTEMPTS cfg →
  (∀ t', isBlocked t' ip (reset ip b) = JUndefined)
  ∧ attempts (reset ip b) !! normalizeIp ip = None
  ∧ (invalid_requests cfg (nows ++ [t]) ip (reset ip b)).2
      = replicate (length nows) false ++ [true].
Proof.
  intros Hmax.
  assert (attempts (reset ip b) !! normalizeIp ip = None) as Hatt
    by (unfold reset; simpl; by rewrite lookup_delete_eq).
  split_and!; [| done |].
  - intros t'. unfold isBlocked, reset. simpl. by rewrite lookup_delete_eq.
  - destruct (invalid_requests_lockout cfg nows t ip (reset ip b)) as (b' & -> & _);
      [rewrite Hatt; simpl; lia | done].
Qed.

(** X17. The module keeps one record per address, the loopback address
    [::1] being recorded as [::ffff:127.0.0.1]: an invalid request or a
    reset of one address changes neither the block nor the count of any
    other address. *)
Theorem addresses_are_independent cfg now ip other b :
  normalizeIp other ≠ normalizeIp ip →
  let b1 := (registerInvalidRequest cfg now ip b).1 in
  let b2 := reset ip b in
  (∀ t, isBlocked t other b1 = isBlocked t other b ∧ isBlocked t other b2 = isBlocked t other b)
  ∧ attempts b1 !! normalizeIp other = attempts b !! normalizeIp other
  ∧ attempts b2 !! normalizeIp other = attempts b !! normalizeIp other
  ∧ registerInvalidRequest cfg now "::1" b = registerInvalidRequest cfg now "::ffff:127.0.0.1" b
  ∧ reset "::1" b = reset "::ffff:127.0.0.1" b.
Proof.
  intros Hne b1 b2. subst b1 b2. unfold registerInvalidRequest, reset, isBlocked.
  destruct (MAX_INVALID_ATTEMPTS cfg <=? _); simpl;
    (split_and!; [intros t; split | | | done | done]);
    by rewrite ?lookup_delete_ne, ?lookup_insert_ne by done.
Qed.

(** * utils/security.js and middlewares/requestLogger.js *)

(** Induction on a tree, with the property known for the parts. *)
Lemma json_tree_ind (P : json → Prop) :
  (∀ v, P (JAtom v)) →
  (∀ props, Forall (λ kv, P kv.2) props → P (JObject props)) →
  (∀ items, Forall P items → P (JArray items)) →
  ∀ v, P v.
Proof.
  intros Hatom Hobject Harray.
  exact (fix IH (v : json) : P v :=
    match v with
    | JAtom a => Hatom a
    | JObject props =>
        Hobject props
          ((fix each (l : list (string * json)) : Forall (λ kv, P kv.2) l :=
              match l with
              | [] => @List.Forall_nil _ _
              | (k, x) :: l' => @List.Forall_cons _ _ (k, x) l' (IH x) (each l')
              end) props)
    | JArray items =>
        Harray items
          ((fix each (l : list json) : Forall P l :=
              match l with
              | [] => @List.Forall_nil _ _
              | x :: l' => @List.Forall_cons _ _ x l' (IH x) (each l')
              end) items)
    end).
Qed.

Lemma sanitize_object_cons key value rest :
  sanitize (JObject ((key, value) :: rest)) =
    match sanitize (JObject rest) with
    | JObject rest' =>
        JObject (if removed_key key then rest' else (key, sanitize value) :: rest')
    | other => other
    end.
Proof. simpl. by destruct (removed_key key). Qed.

Lemma sanitize_object props : ∃ props', sanitize (JObject props) = JObject props'.
Proof. simpl. eauto. Qed.

Lemma clean_object_cons key value rest :
  clean (JObject ((key, value) :: rest)) =
    negb (removed_key key) && clean value && clean (JObject rest).
Proof. reflexivity. Qed.

Lemma sanitize_clean v : clean (sanitize v) = true.
Proof.
  induction v as [a|props IH|items IH] using json_tree_ind; [done| |].
  - induction IH as [|[key value] rest Hvalue _ IHrest]; [done|].
    rewrite sanitize_object_cons.
    destruct (sanitize_object rest) as [rest' E]. rewrite E in *.
    destruct (removed_key key) eqn:Hkey; [done|].
    rewrite clean_object_cons, Hkey. simpl in Hvalue. by rewrite Hvalue, IHrest.
  - simpl. induction IH as [|item rest Hitem _ IHrest]; [done|].
    simpl. by rewrite Hitem, IHrest.
Qed.

Lemma sanitize_id v : clean v = true → sanitize v = v.
Proof.
  induction v as [a|props IH|items IH] using json_tree_ind; [done| |].
  - induction IH as [|[key value] rest Hvalue _ IHrest]; [done|].
    rewrite clean_object_cons, sanitize_object_cons.
    intros [[Hkey Hv]%andb_prop Hrest]%andb_prop.
    rewrite (IHrest Hrest). apply negb_true_iff in Hkey. rewrite Hkey.
    simpl in Hvalue. by rewrite (Hvalue Hv).
  - simpl. intros Hclean. f_equal.
    induction IH as [|item rest Hitem _ IHrest]; [done|].
    simpl in Hclean. apply andb_prop in Hclean as [Hi Hr].
    simpl. by rewrite (Hitem Hi), (IHrest Hr).
Qed.

(** X18. After [sanitize] no key of the tree, at any depth, begins with
    [$] or contains a dot. A tree that has no such key is left as it is, so
    a second [sanitize] changes nothing. *)
Theorem sanitize_leaves_no_operator_key v :
  clean (sanitize v) = true
  ∧ (clean v = true ↔ sanitize v = v)
  ∧ sanitize (sanitize v) = sanitize v.
Proof.
  split_and!.
  - apply sanitize_clean.
  - split; [apply sanitize_id|]. intros E. rewrite <- E. apply sanitize_clean.
  - apply sanitize_id, sanitize_clean.
Qed.

(** X19. [sanitize] removes a key that begins with [$] or contains a dot
    together with all it holds, and removes no other key: reading any other
    key of the sanitized object gives the sanitized value of that key. *)
Theorem sanitize_keeps_the_other_keys props key :
  json_get (sanitize (JObject props)) key =
    (if removed_key key then None else sanitize <$> json_get (JObject props) key).
Proof.
  induction props as [|[k value] rest IH].
  - simpl. by destruct (removed_key key).
  - rewrite sanitize_object_cons.
    destruct (sanitize_object rest) as [rest' E]. rewrite E in *.
    change (json_get (JObject ((k, value) :: rest)) key)
      with (if decide (k = key) then Some value else json_get (JObject rest) key).
    destruct (decide (k = key)) as [->|Hne].
    + destruct (removed_key key) eqn:Hkey.
      * by rewrite IH.
      * simpl. by rewrite decide_True.
    + destruct (removed_key k); [done|]. simpl. rewrite decide_False by done.
      apply IH.
Qed.

Section requestLogger_properties.

Variable toLowerCase : string → string.

Lemma sanitizeObject_object_cons key value rest :
  sanitizeObject toLowerCase (JObject ((key, value) :: rest)) =
    match sanitizeObject toLowerCase (JObject rest) with
    | JObject rest' => JObject (assign key (logged_value toLowerCase key value) rest')
    | other => other
    end.
Proof.
  unfold logged_value, sensitive. simpl.
  destruct (bool_decide (toLowerCase key ∈ SENSITIVE_FIELDS)); [done|].
  by destruct value.
Qed.

Lemma sanitizeObject_object props :
  ∃ props', sanitizeObject toLowerCase (JObject props) = JObject props'.
Proof. simpl. eauto. Qed.

Lemma redacted_object_cons key value rest :
  redacted toLowerCase (JObject ((key, value) :: rest)) =
    (if sensitive toLowerCase key then is_REDACTED value else redacted toLowerCase value)
    && redacted toLowerCase (JObject rest).
Proof. reflexivity. Qed.

Lemma plain_object_cons key value rest :
  plain (JObject ((key, value) :: rest)) =
    negb (bool_decide (key = "__proto__")) && plain value && plain (JObject rest).
Proof. reflexivity. Qed.

Lemma sanitizeObject_redacted v : redacted toLowerCase (sanitizeObject toLowerCase v) = true.
Proof.
  induction v as [a|props IH|items IH] using json_tree_ind; [done| |].
  - induction IH as [|[key value] rest Hvalue _ IHrest]; [done|].
    rewrite sanitizeObject_object_cons.
    destruct (sanitizeObject_object rest) as [rest' E]. rewrite E in *.
    unfold assign. case_decide; [done|].
    rewrite redacted_object_cons, IHrest, andb_true_r. unfold logged_value.
    by destruct (sensitive toLowerCase key).
  - simpl. induction IH as [|item rest Hitem _ IHrest]; [done|].
    simpl. by rewrite Hitem, IHrest.
Qed.

Lemma sanitizeObject_plain v : plain (sanitizeObject toLowerCase v) = true.
Proof.
  induction v as [a|props IH|items IH] using json_tree_ind; [done| |].
  - induction IH as [|[key value] rest Hvalue _ IHrest]; [done|].
    rewrite sanitizeObject_object_cons.
    destruct (sanitizeObject_object rest) as [rest' E]. rewrite E in *.
    unfold assign. case_decide; [done|].
    rewrite plain_object_cons, IHrest, andb_true_r, bool_decide_false by done.
    unfold logged_value. by destruct (sensitive toLowerCase key).
  - simpl. induction IH as [|item rest Hitem _ IHrest]; [done|].
    simpl. by rewrite Hitem, IHrest.
Qed.

Lemma sanitizeObject_id v :
  redacted toLowerCase v = true → plain v = true →
  sanitizeObject toLowerCase v = v.
Proof.
  induction v as [a|props IH|items IH] using json_tree_ind; [done| |].
  - induction IH as [|[key value] rest Hvalue _ IHrest]; [done|].
    rewrite redacted_object_cons, plain_object_cons, sanitizeObject_object_cons.
    intros [Hv Hrest]%andb_prop [[Hkey Hp]%andb_prop Hprest]%andb_prop.
    rewrite (IHrest Hrest Hprest). unfold assign.
    apply negb_true_iff, bool_decide_eq_false in Hkey. rewrite decide_False by done.
    do 3 f_equal.
    unfold logged_value. destruct (sensitive toLowerCase key).
    + destruct value as [[| | | |s]| |]; try done. simpl in Hv.
      by apply String.eqb_eq in Hv as ->.
    + by apply Hvalue.
  - simpl. intros Hred Hplain. f_equal.
    induction IH as [|item rest Hitem _ IHrest]; [done|].
    simpl in Hred, Hplain.
    apply andb_prop in Hred as [Hi Hr]. apply andb_prop in Hplain as [Hpi Hpr].
    simpl. by rewrite (Hitem Hi Hpi), (IHrest Hr Hpr).
Qed.

(** X20. In the copy that [sanitizeObject] returns, every key whose
    lower-case form is one of the sensitive fields holds ['[REDACTED]'], at
    any depth, and no object has the key ["__proto__"]: the assignment of
    that key defines no property. The copy equals the argument exactly when
    both are already so in the argument, and the function is idempotent. *)
Theorem sanitizeObject_redacts_at_any_depth v :
  redacted toLowerCase (sanitizeObject toLowerCase v) = true
  ∧ plain (sanitizeObject toLowerCase v) = true
  ∧ (redacted toLowerCase v = true ∧ plain v = true ↔
     sanitizeObject toLowerCase v = v)
  ∧ sanitizeObject toLowerCase (sanitizeObject toLowerCase v) = sanitizeObject toLowerCase v.
Proof.
  split_and!.
  - apply sanitizeObject_redacted.
  - apply sanitizeObject_plain.
  - split; [intros [Hr Hp]; by apply sanitizeObject_id|].
    intros E. rewrite <- E. split; [apply sanitizeObject_redacted | apply sanitizeObject_plain].
  - apply sanitizeObject_id; [apply sanitizeObject_redacted | apply sanitizeObject_plain].
Qed.

(** X21. The copy that [sanitizeObject] makes of an object has the keys of
    the original other than ["__proto__"], in the same order, and no other.
    Reading a key of the copy gives ['[REDACTED]'] for a sensitive key and
    the sanitized copy of the original value for any other; the key
    ["__proto__"] is not a property of the copy, whatever the original
    holds under it. *)
Theorem sanitizeObject_keeps_every_other_key props :
  ∃ props',
    sanitizeObject toLowerCase (JObject props) = JObject props'
    ∧ props'.*1 = filter (λ key, key ≠ "__proto__") props.*1
    ∧ ∀ key, json_get (JObject props') key =
               if decide (key = "__proto__") then None
               else logged_value toLowerCase key <$> json_get (JObject props) key.
Proof.
  induction props as [|[k value] rest (rest' & E & Hkeys & Hget)].
  - exists []. split_and!; [done..|]. intros key. by case_decide.
  - rewrite sanitizeObject_object_cons, E. eexists. split_and!; [done | |].
    + csimpl. unfold assign. rewrite filter_cons. case_decide as Hk.
      * by rewrite decide_False by (by intros ?).
      * rewrite decide_True by done. csimpl. by rewrite Hkeys.
    + intros key. specialize (Hget key). unfold assign.
      change (json_get (JObject ((k, value) :: rest)) key)
        with (if decide (k = key) then Some value else json_get (JObject rest) key).
      destruct (decide (k = "__proto__")) as [->|Hk].
      * rewrite Hget. case_decide as Hkey; [done|]. by rewrite decide_False.
      * change (json_get (JObject ((k, logged_value toLowerCase k value) :: rest')) key)
          with (if decide (k = key) then Some (logged_value toLowerCase k value)
                else json_get (JObject rest') key).
        destruct (decide (k = key)) as [->|Hne]; [by rewrite decide_False | apply Hget].
Qed.

End requestLogger_properties.

(** * services/gameserverService.js *)

Lemma backslash_is_special : regex_special "\"%char = true.
Proof. reflexivity. Qed.

Lemma literal_of_escapeRegex s : literal_of_pattern (escapeRegex s) = Some s.
Proof.
  induction s as [|c s IH]; [done|]. simpl.
  destruct (regex_special c) eqn:Hc.
  - simpl. by rewrite Hc, IH.
  - simpl. destruct (Ascii.eqb_spec c "\"%char) as [->|_].
    + by rewrite backslash_is_special in Hc.
    + by rewrite Hc, IH.
Qed.

(** X22. What [escapeRegex] returns is a pattern of plain characters and
    escaped special characters only, and the string it stands for is the
    argument: no character of the argument is left to act as an operator of
    the regular expression. Different arguments give different patterns,
    and an argument without special characters is returned as it is. *)
Theorem escapeRegex_is_literal s :
  literal_of_pattern (escapeRegex s) = Some s
  ∧ (∀ t, escapeRegex t = escapeRegex s → t = s)
  ∧ (escapeRegex s = s ↔
     forallb (λ c, negb (regex_special c)) (String.list_ascii_of_string s) = true).
Proof.
  split_and!.
  - apply literal_of_escapeRegex.
  - intros t E. pose proof (literal_of_escapeRegex t) as Ht.
    rewrite E, literal_of_escapeRegex in Ht. congruence.
  - induction s as [|c s IH]; [done|]. simpl.
    destruct (regex_special c) eqn:Hc; simpl.
    + split; [|done]. intros E. apply (f_equal String.length) in E. simpl in E.
      exfalso. clear -E.
      assert (∀ u, String.length u ≤ String.length (escapeRegex u))%nat as Hle.
      { induction u as [|d u IHu]; simpl; [lia|].
        destruct (regex_special d); simpl; lia. }
      specialize (Hle s). lia.
    + rewrite <- IH. split; [by intros [= ->] | by intros ->].
Qed.

(** * The further properties at the scenarios *)

Lemma registration_touches_one_entry_witness :
  let h' := (hub_step s3cret hub_Zone1_twice (Message 1%nat (SERVER_CONNECT "Zone2" "s3cret"))).1 in
  (∀ other, other ≠ JStr "Zone2" →
     Map_get (connectedServers h') other = Map_get (connectedServers hub_Zone1_twice) other)
  ∧ (∀ w', w' ≠ 1%nat → contexts h' !! w' = contexts hub_Zone1_twice !! w')
  ∧ Map_keys (connectedServers h') =
      (if decide (JStr "Zone2" ∈ Map_keys (connectedServers hub_Zone1_twice))
       then Map_keys (connectedServers hub_Zone1_twice)
       else Map_keys (connectedServers hub_Zone1_twice) ++ [JStr "Zone2"]).
Proof.
  apply (registration_touches_one_entry s3cret "s3cret" 1%nat (JNum 1) _ (JStr "Zone2")
           (Context (JStr "Zone1") true));
    [reflexivity | discriminate | reflexivity..].
Defined.

Lemma reregistration_changes_nothing_witness :
  (hub_step s3cret hub_Zone1_twice (Message 2%nat (SERVER_CONNECT "Zone1" "s3cret"))).1
    = hub_Zone1_twice
  ∧ sent 2%nat (hub_step s3cret hub_Zone1_twice (Message 2%nat (SERVER_CONNECT "Zone1" "s3cret"))).2
    = [registered_reply (JStr "Zone1")].
Proof.
  apply (reregistration_changes_nothing s3cret "s3cret" 2%nat (JNum 1) _ (JStr "Zone1"));
    [reflexivity | discriminate | reflexivity | reflexivity | reflexivity
    | left; reflexivity | reflexivity].
Defined.

Lemma renaming_leaves_a_stale_entry_witness :
  let h1 := (hub_step s3cret hub_Zone1_twice (Message 2%nat (SERVER_CONNECT "Zone2" "s3cret"))).1 in
  let h2 := (hub_step s3cret h1 (Closed 2%nat)).1 in
  (Map_get (connectedServers h1) (JStr "Zone1") = Some 2%nat
   ∧ Map_get (connectedServers h1) (JStr "Zone2") = Some 2%nat)
  ∧ contexts h2 !! 2%nat = None
  ∧ Map_get (connectedServers h2) (JStr "Zone2") = None
  ∧ Map_get (connectedServers h2) (JStr "Zone1") = Some 2%nat
  ∧ JStr "Zone1" ∈ Map_keys (connectedServers h2).
Proof.
  apply (renaming_leaves_a_stale_entry s3cret "s3cret" 2%nat (JNum 1) _ (JStr "Zone1")
           (JStr "Zone2"));
    [reflexivity | discriminate | reflexivity | reflexivity | reflexivity | reflexivity
    | reflexivity | discriminate | reflexivity].
Defined.

Lemma close_removes_own_name_only_witness :
  let h' := (hub_step s3cret hub_Zone1_twice (Closed 2%nat)).1 in
  contexts h' !! 2%nat = None
  ∧ Map_get (connectedServers h') (JStr "Zone1") = None
  ∧ (∀ other, other ≠ JStr "Zone1" →
       Map_get (connectedServers h') other = Map_get (connectedServers hub_Zone1_twice) other)
  ∧ (∀ w', w' ≠ 2%nat → contexts h' !! w' = contexts hub_Zone1_twice !! w')
  ∧ hub_step s3cret h' (Relay (JStr "Zone1") USER_CONNECTED)
    = (h', [Log warn (LogNotFound (JStr "Zone1"))]).
Proof.
  apply (close_removes_own_name_only s3cret 2%nat (Context (JStr "Zone1") true)).
  reflexivity.
Defined.

Lemma relay_reaches_latest_registrant_witness :
  let h' := (hub_step s3cret hub_Zone1_twice (Message 1%nat (SERVER_CONNECT "Zone1" "s3cret"))).1 in
  hub_step s3cret h' (Relay (JStr "Zone1") USER_CONNECTED)
    = (h', [Send 1%nat USER_CONNECTED; Log info (LogSent (JStr "Zone1") USER_CONNECTED)]).
Proof.
  apply (relay_reaches_latest_registrant s3cret "s3cret" 1%nat (JNum 1) _ (JStr "Zone1")
           (Context (JStr "Zone1") true));
    [reflexivity | discriminate | reflexivity..].
Defined.

Lemma unauthenticated_CLIENT_CONNECT_is_ignored_witness :
  hub_step s3cret (reached s3cret UnknownServer_taken) (Message 2%nat (CLIENT_CONNECT "UnknownServer"))
    = (reached s3cret UnknownServer_taken, [Log warn LogClientUnauthenticated]).
Proof.
  apply (unauthenticated_CLIENT_CONNECT_is_ignored s3cret 2%nat (JNum 2) _
           (Context (JStr "UnknownServer") false));
    reflexivity.
Defined.

Lemma non_string_token_gets_no_reply_witness :
  let '(h', out) :=
    hub_step s3cret hub1
      (Message 1%nat (Frame (JNum 1) (Some [("name", JStr "Zone1"); ("token", JNum 12345)]))) in
  h' = hub1
  ∧ out = [Log error LogProcessingError]
  ∧ sent 1%nat out = []
  ∧ closes 1%nat out = false.
Proof.
  apply (non_string_token_gets_no_reply s3cret "s3cret" 1%nat (JNum 1)
           (Some [("name", JStr "Zone1"); ("token", JNum 12345)])
           (Context (JStr "UnknownServer") false) hub1);
    [reflexivity | discriminate | reflexivity | reflexivity |].
  left. exists 12345. split; [lia | reflexivity].
Defined.

Lemma login_reaches_registered_server_witness :
  let token := sign "42" "bob" in
  let h1 := (hub_step s3cret hub1 (Message 1%nat (SERVER_CONNECT "Zone1" "s3cret"))).1 in
  let h2 := (hub_step s3cret h1 (Closed 1%nat)).1 in
  (∃ out, login users check_password sign "bob" "hunter22" "Zone1" h1
            = (h1, out, Resolved "42" "bob" token)
          ∧ login_sent 1%nat out = [USER_CONNECTED_frame "bob" token])
  ∧ (∃ out, login users check_password sign "bob" "hunter22" "Zone1" h2
              = (h2, out, Resolved "42" "bob" token)
            ∧ ∀ w', login_sent w' out = []).
Proof.
  apply (login_reaches_registered_server s3cret users check_password sign "s3cret" 1%nat
           (JNum 1) _ "Zone1" (Context (JStr "UnknownServer") false) bob "bob" "hunter22" hub1);
    [reflexivity | discriminate | reflexivity | reflexivity | reflexivity | discriminate
    | reflexivity | reflexivity | reflexivity].
Defined.

Lemma lockout_at_the_threshold_witness :
  let expires := 5000 + 15 * 60 * 1000 in
  let '(b', answers) := invalid_requests three_strikes ([1000; 2000] ++ [5000]) "::1" nobody_blocked in
  answers = replicate 2 false ++ [true]
  ∧ (invalid_requests three_strikes [1000; 2000] "::1" nobody_blocked).2 = replicate 2 false
  ∧ blacklist (invalid_requests three_strikes [1000; 2000] "::1" nobody_blocked).1
    = blacklist nobody_blocked
  ∧ blacklist b' !! normalizeIp "::1" = Some expires
  ∧ attempts b' !! normalizeIp "::1" = None
  ∧ (expires ≠ 0 → ∀ t', truthy (isBlocked t' "::1" b') = true ↔ t' < expires).
Proof.
  apply (lockout_at_the_threshold three_strikes [1000; 2000] 5000 "::1" nobody_blocked).
  reflexivity.
Defined.

Lemma reset_starts_over_witness :
  (∀ t', isBlocked t' "10.0.0.7" (reset "10.0.0.7" nobody_blocked) = JUndefined)
  ∧ attempts (reset "10.0.0.7" nobody_blocked) !! normalizeIp "10.0.0.7" = None
  ∧ (invalid_requests three_strikes ([1000; 2000] ++ [5000]) "10.0.0.7"
       (reset "10.0.0.7" nobody_blocked)).2
    = replicate 2 false ++ [true].
Proof.
  apply (reset_starts_over three_strikes [1000; 2000] 5000 "10.0.0.7" nobody_blocked).
  reflexivity.
Defined.

Lemma addresses_are_independent_witness :
  let b1 := (registerInvalidRequest three_strikes 1000 "::1" nobody_blocked).1 in
  let b2 := reset "::1" nobody_blocked in
  (∀ t, isBlocked t "10.0.0.7" b1 = isBlocked t "10.0.0.7" nobody_blocked
        ∧ isBlocked t "10.0.0.7" b2 = isBlocked t "10.0.0.7" nobody_blocked)
  ∧ attempts b1 !! normalizeIp "10.0.0.7" = attempts nobody_blocked !! normalizeIp "10.0.0.7"
  ∧ attempts b2 !! normalizeIp "10.0.0.7" = attempts nobody_blocked !! normalizeIp "10.0.0.7"
  ∧ registerInvalidRequest three_strikes 1000 "::1" nobody_blocked
    = registerInvalidRequest three_strikes 1000 "::ffff:127.0.0.1" nobody_blocked
  ∧ reset "::1" nobody_blocked = reset "::ffff:127.0.0.1" nobody_blocked.
Proof.
  apply (addresses_are_independent three_strikes 1000 "::1" "10.0.0.7" nobody_blocked).
  discriminate.
Defined.
